(** * PreviewPlayer: layout, timing, ticker, audio monitor and export clock

    A shallow embedding of the pure and state-passing parts of the
    [PreviewPlayer] component (text layout engine, scroll speed and
    duration resolution, ticker geometry, the monitor-mute effect, the
    start/stop audio effect and the export tick loop).

    Conventions.
    - A JavaScript number is modelled as an exact rational ([Q]); NaN and
      the infinities have no counterpart, so a division is only meaningful
      when its divisor is non-zero.  Equality of numbers is [==].  Where a
      property depends on how results are rounded, the computation is
      modelled a second time in [Rounded], with every arithmetic operation
      followed by a rounding operator of bounded relative error.
    - A JavaScript string is a list of UTF-16 code units.
    - React state and refs are fields of explicit records that the
      handlers take and return. *)

From Stdlib Require Import QArith Qround Qminmax Qabs Qpower Lqa Lia ZArith NArith.
From Stdlib Require Import List String Ascii Bool.
Import ListNotations.

Open Scope Q_scope.

(* ================================================================== *)
(** ** JavaScript primitives *)

Module JS.

Definition number := Q.

(** UTF-16 code unit. *)
Definition char16 := N.
Definition jsstring := list char16.

(** ASCII literal to code units. *)
Fixpoint str (s : string) : jsstring :=
  match s with
  | EmptyString => []
  | String a s' => N_of_ascii a :: str s'
  end.

(** Strict equality of strings. *)
Fixpoint eqb (a b : jsstring) : bool :=
  match a, b with
  | [], [] => true
  | x :: a', y :: b' => N.eqb x y && eqb a' b'
  | _, _ => false
  end.

(** The class [\s] of a regular expression, which is also what
    [String.prototype.trim] strips: WhiteSpace and LineTerminator. *)
Definition is_space (c : char16) : bool :=
  (N.leb 9 c && N.leb c 13)
  || N.eqb c 32 || N.eqb c 160 || N.eqb c 5760
  || (N.leb 8192 c && N.leb c 8202)
  || N.eqb c 8232 || N.eqb c 8233 || N.eqb c 8239 || N.eqb c 8287
  || N.eqb c 12288 || N.eqb c 65279.

Fixpoint trimStart (s : jsstring) : jsstring :=
  match s with
  | [] => []
  | c :: s' => if is_space c then trimStart s' else s
  end.

Definition trimEnd (s : jsstring) : jsstring := rev (trimStart (rev s)).

Definition trim (s : jsstring) : jsstring := trimEnd (trimStart s).

(** [s.replace(/c+/g, '')] for a single character [c], and
    [s.replace(/[cd]/g, '')]: every occurrence is deleted. *)
Definition remove_chars (p : char16 -> bool) (s : jsstring) : jsstring :=
  filter (fun c => negb (p c)) s.

(** [s.split(sep)] for a one-character separator; [cur] is the piece being
    read.  The result is never empty. *)
Fixpoint split_from (sep : char16) (s cur : jsstring) : list jsstring :=
  match s with
  | [] => [cur]
  | c :: s' =>
      if N.eqb c sep then cur :: split_from sep s' []
      else split_from sep s' (cur ++ [c])
  end.

Definition split (sep : char16) (s : jsstring) : list jsstring :=
  split_from sep s [].

(** [s.split(/(\s+)/)]: the pieces between whitespace runs, with the runs
    themselves (the capture group) in between.  The array starts and ends
    with a piece between runs, which is empty when the string starts or
    ends with whitespace.  [cur] is the run being read and [in_space] says
    which kind it is. *)
Fixpoint split_ws_from (s cur : jsstring) (in_space : bool) : list jsstring :=
  match s with
  | [] => if in_space then [cur; []] else [cur]
  | c :: s' =>
      if Bool.eqb (is_space c) in_space
      then split_ws_from s' (cur ++ [c]) in_space
      else cur :: split_ws_from s' [c] (is_space c)
  end.

Definition split_ws (s : jsstring) : list jsstring := split_ws_from s [] false.

(** Truthiness. *)
Definition truthy_num (x : number) : bool := negb (Qeq_bool x 0).
Definition truthy_str (s : jsstring) : bool :=
  match s with [] => false | _ => true end.
Definition truthy_opt_str (s : option jsstring) : bool :=
  match s with Some s => truthy_str s | None => false end.

(** [x || d] on numbers. *)
Definition or_num (x d : number) : number := if truthy_num x then x else d.

(** [x ?? d]. *)
Definition nullish {A} (x : option A) (d : A) : A :=
  match x with Some a => a | None => d end.

(** Truncation toward zero and the remainder operator [a % b], whose
    result has the sign of the dividend. *)
Definition trunc (x : number) : Z := Z.quot (Qnum x) (Zpos (Qden x)).
Definition rem (a b : number) : number := a - b * inject_Z (trunc (a / b)).

Definition gtb (a b : number) : bool := negb (Qle_bool a b).
Definition geb (a b : number) : bool := Qle_bool b a.

End JS.

Import JS.

(* ================================================================== *)
(** ** Configuration *)

Inductive AspectRatio := R16_9 | R9_16 | R1_1 | R4_5.

(** The fields of [VideoConfig] that the modelled code reads. *)
Record VideoConfig := {
  aspectRatio : AspectRatio;
  script : jsstring;
  fontFamily : jsstring;
  fontSize : number;
  isBold : bool;
  lineHeight : number;
  scrollSpeed : number;
  autoScrollSpeed : bool;
  audioUrl : option jsstring;
  bgMusicUrl : option jsstring;
  bgMusicVolume : number;
  mainAudioVolume : option number;
  muteOnExport : bool;
  fps : number;
  tickerText : jsstring;
  tickerSpeed : number;
  tickerFontSize : number
}.

Definition getCanvasDimensions (config : VideoConfig) : number * number :=
  match aspectRatio config with
  | R9_16 => (1080, 1920)
  | R1_1 => (1080, 1080)
  | R4_5 => (1080, 1350)
  | R16_9 => (1920, 1080)
  end.

Definition CANVAS_WIDTH (config : VideoConfig) : number :=
  fst (getCanvasDimensions config).
Definition CANVAS_HEIGHT (config : VideoConfig) : number :=
  snd (getCanvasDimensions config).
Definition PADDING_X (config : VideoConfig) : number :=
  CANVAS_WIDTH config * 0.05.

(* ================================================================== *)
(** ** Text layout engine *)

(** What [ctx.font] is set to before measuring. *)
Record Font := {
  font_bold : bool;
  font_px : number;
  font_families : list jsstring
}.

(** A 2D context, as far as layout is concerned: [measureText(s).width]
    under the current font. *)
Definition Context2D := Font -> jsstring -> number.

Record Segment := { text : jsstring; width : number }.
Record Line := { segments : list Segment; line_width : number }.

(** The first family of [config.fontFamily] (split on commas), trimmed,
    with single and double quote characters (codes 39 and 34) removed. *)
Definition fontName (config : VideoConfig) : jsstring :=
  remove_chars (fun c => N.eqb c 39 || N.eqb c 34)
    (trim (hd [] (split 44%N (fontFamily config)))).

Definition textFont (config : VideoConfig) : Font :=
  {| font_bold := isBold config;
     font_px := fontSize config;
     font_families := [fontName config] |}.

(** The state of the wrapping loop over one hard line. *)
Record Wrap := {
  finalLines : list Line;
  currentLine : list Segment;
  currentWidth : number
}.

(** Body of [lineSegments.forEach]. *)
Definition wrap_segment (maxWidth : number) (w : Wrap) (seg : Segment) : Wrap :=
  if eqb (text seg) [10%N] then w
  else
    let w1 :=
      if gtb (currentWidth w + width seg) maxWidth
         && Nat.ltb 0 (List.length (trim (text seg)))
      then {| finalLines := finalLines w ++
                [{| segments := currentLine w; line_width := currentWidth w |}];
              currentLine := [];
              currentWidth := 0 |}
      else w in
    {| finalLines := finalLines w1;
       currentLine := currentLine w1 ++ [seg];
       currentWidth := currentWidth w1 + width seg |}.

(** [parts.forEach]: empty parts are dropped, the others measured. *)
Definition measure_parts (measure : jsstring -> number) (parts : list jsstring)
  : list Segment :=
  map (fun part => {| text := part; width := measure part |})
      (filter truthy_str parts).

(** Body of [rawLines.forEach]. *)
Definition layout_line (measure : jsstring -> number) (maxWidth : number)
  (acc : list Line) (line : jsstring) : list Line :=
  match line with
  | [] => acc ++ [{| segments := []; line_width := 0 |}]
  | _ =>
      let lineSegments := measure_parts measure (split_ws line) in
      let w := fold_left (wrap_segment maxWidth) lineSegments
                 {| finalLines := acc; currentLine := []; currentWidth := 0 |} in
      match currentLine w with
      | [] => finalLines w
      | _ => finalLines w ++
               [{| segments := currentLine w; line_width := currentWidth w |}]
      end
  end.

Definition maxWidth (config : VideoConfig) : number :=
  CANVAS_WIDTH config - PADDING_X config * 2.

(** The [lines] memo.  [ctx] is what [getContext('2d')] returned. *)
Definition lines (ctx : option Context2D) (config : VideoConfig) : list Line :=
  match ctx with
  | None => []
  | Some ctx =>
      let sanitizedScript := remove_chars (N.eqb 42) (script config) in
      let rawLines := split 10%N sanitizedScript in
      fold_left (layout_line (ctx (textFont config)) (maxWidth config))
        rawLines []
  end.

Definition totalTextHeight (ctx : option Context2D) (config : VideoConfig)
  : number :=
  inject_Z (Z.of_nat (List.length (lines ctx config)))
  * (fontSize config * lineHeight config).

(* ================================================================== *)
(** ** Scroll speed and duration *)

Definition totalDistance (ctx : option Context2D) (config : VideoConfig)
  : number :=
  totalTextHeight ctx config + CANVAS_HEIGHT config.

Definition calculatedAutoSpeed (ctx : option Context2D) (config : VideoConfig)
  (audioDuration : number) : number :=
  if autoScrollSpeed config && gtb audioDuration 0
  then
    let speed := totalDistance ctx config / audioDuration in
    Qmax speed 10
  else scrollSpeed config.

Definition effectiveScrollSpeed (ctx : option Context2D) (config : VideoConfig)
  (audioDuration : number) : number :=
  if autoScrollSpeed config
  then calculatedAutoSpeed ctx config audioDuration
  else scrollSpeed config.

(** The divisor of [visualDuration]: [effectiveScrollSpeed || 50]. *)
Definition visualDivisor (ctx : option Context2D) (config : VideoConfig)
  (audioDuration : number) : number :=
  or_num (effectiveScrollSpeed ctx config audioDuration) 50.

Definition visualDuration (ctx : option Context2D) (config : VideoConfig)
  (audioDuration : number) : number :=
  totalDistance ctx config / visualDivisor ctx config audioDuration.

Definition maxDuration (ctx : option Context2D) (config : VideoConfig)
  (audioDuration : number) : number :=
  if truthy_opt_str (audioUrl config) && gtb audioDuration 0
  then audioDuration
  else visualDuration ctx config audioDuration.

(* ================================================================== *)
(** ** The same numbers with rounding *)

(** [fl] rounds an exact result to a number the machine has. *)
Definition Rounding := number -> number.

(** The relative error of [fl] is at most [u]. *)
Definition rounds_within (u : number) (fl : Rounding) : Prop :=
  forall x, Qabs (fl x - x) <= u * Qabs x.

(** Speed and duration once more, each arithmetic operation of the source
    followed by [fl].  Comparisons, [Math.max], [||] and the canvas size
    are exact. *)
Module Rounded.
Section WithRounding.
Variable fl : Rounding.

Definition totalTextHeight (ctx : option Context2D) (config : VideoConfig)
  : number :=
  fl (inject_Z (Z.of_nat (List.length (lines ctx config)))
      * fl (fontSize config * lineHeight config)).

Definition totalDistance (ctx : option Context2D) (config : VideoConfig)
  : number :=
  fl (totalTextHeight ctx config + CANVAS_HEIGHT config).

Definition calculatedAutoSpeed (ctx : option Context2D) (config : VideoConfig)
  (audioDuration : number) : number :=
  if autoScrollSpeed config && gtb audioDuration 0
  then
    let speed := fl (totalDistance ctx config / audioDuration) in
    Qmax speed 10
  else scrollSpeed config.

Definition effectiveScrollSpeed (ctx : option Context2D) (config : VideoConfig)
  (audioDuration : number) : number :=
  if autoScrollSpeed config
  then calculatedAutoSpeed ctx config audioDuration
  else scrollSpeed config.

Definition visualDuration (ctx : option Context2D) (config : VideoConfig)
  (audioDuration : number) : number :=
  fl (totalDistance ctx config
      / or_num (effectiveScrollSpeed ctx config audioDuration) 50).

Definition maxDuration (ctx : option Context2D) (config : VideoConfig)
  (audioDuration : number) : number :=
  if truthy_opt_str (audioUrl config) && gtb audioDuration 0
  then audioDuration
  else visualDuration ctx config audioDuration.

End WithRounding.
End Rounded.

(** Rounding to the nearest number with a significand of 53 bits, ties to
    the even significand: the rounding of IEEE 754 binary64 arithmetic,
    without its bounds on the exponent. *)
Definition round_even (y : Q) : Z :=
  let f := Qfloor y in
  match Qcompare (y - inject_Z f) (1 # 2) with
  | Lt => f
  | Gt => (f + 1)%Z
  | Eq => if Z.even f then f else (f + 1)%Z
  end.

(** The exponent [e] with [2^52 <= a / 2^e < 2^53], for [a > 0]. *)
Definition binade (a : Q) : Z :=
  let e0 := (Z.log2 (Qnum a) - Z.log2 (Zpos (Qden a)) - 53)%Z in
  if Qle_bool (2 ^ 53) (a / 2 ^ e0) then (e0 + 1)%Z else e0.

Definition binary64 : Rounding :=
  fun x =>
    if Qeq_bool x 0 then 0
    else
      let ulp := 2 ^ binade (Qabs x) in
      let m := inject_Z (round_even (Qabs x / ulp)) * ulp in
      if Qle_bool 0 x then m else - m.

(* ================================================================== *)
(** ** Ticker block of [renderFrame] *)

Inductive DrawCmd :=
| FillRect (x y w h : number)
| FillText (t : jsstring) (x y : number).

Definition tickerFont (config : VideoConfig) : Font :=
  {| font_bold := true;
     font_px := or_num (tickerFontSize config) 40;
     font_families := [str "Hind Siliguri"; str "sans-serif"] |}.

Definition tickerTextWidth (ctx : Context2D) (config : VideoConfig) : number :=
  ctx (tickerFont config) (tickerText config).

Definition tickerLoopWidth (ctx : Context2D) (config : VideoConfig) : number :=
  let gap := 300 in
  tickerTextWidth ctx config + gap.

Definition tickerStartX (ctx : Context2D) (config : VideoConfig)
  (time : number) : number :=
  let shift := rem (time * tickerSpeed config) (tickerLoopWidth ctx config) in
  CANVAS_WIDTH config - shift.

(** Step 6 of [renderFrame]: the commands issued for the ticker. *)
Definition renderTicker (ctx : Context2D) (config : VideoConfig)
  (time : number) : list DrawCmd :=
  if truthy_str (tickerText config) then
    let tickerFontSize := or_num (tickerFontSize config) 40 in
    let tickerPadding := 20 in
    let tickerHeight := tickerFontSize + tickerPadding * 2 in
    let tickerY := CANVAS_HEIGHT config - tickerHeight in
    let loopWidth := tickerLoopWidth ctx config in
    let startX := tickerStartX ctx config time in
    [ FillRect 0 tickerY (CANVAS_WIDTH config) tickerHeight;
      FillRect 0 tickerY (CANVAS_WIDTH config) 4;
      FillText (tickerText config) startX (tickerY + tickerHeight / 2);
      FillText (tickerText config) (startX + loopWidth)
               (tickerY + tickerHeight / 2);
      FillText (tickerText config) (startX - loopWidth)
               (tickerY + tickerHeight / 2) ]
  else [].

(** Left edges of the text copies among the commands. *)
Definition textCopies (cmds : list DrawCmd) : list number :=
  flat_map (fun c => match c with FillText _ x _ => [x] | _ => [] end) cmds.

(** [x] lies in the stretch that one copy accounts for: its text followed
    by the fixed gap, [loopWidth] in all. *)
Definition in_copy (loopWidth x x0 : number) : bool :=
  Qle_bool x0 x && negb (Qle_bool (x0 + loopWidth) x).

Definition ticker_covers (ctx : Context2D) (config : VideoConfig)
  (time x : number) : bool :=
  existsb (in_copy (tickerLoopWidth ctx config) x)
          (textCopies (renderTicker ctx config time)).

(* ================================================================== *)
(** ** Audio graph: gains of the monitor and capture paths *)

Inductive AutomationEvent :=
| SetTargetAtTime (target startTime timeConstant : number).

Record AudioParam := { value : number; automation : list AutomationEvent }.
Record GainNode := { gain : AudioParam }.
Record AudioContext := { contextTime : number }.

Definition setValue (n : GainNode) (v : number) : GainNode :=
  {| gain := {| value := v; automation := automation (gain n) |} |}.

Definition setTargetAtTime (n : GainNode) (target startTime timeConstant : number)
  : GainNode :=
  {| gain := {| value := value (gain n);
                automation := automation (gain n) ++
                  [SetTargetAtTime target startTime timeConstant] |} |}.

Record AudioGraph := {
  audioContextRef : option AudioContext;
  mainAudioGainNodeRef : option GainNode;
  monitorGainNodeRef : option GainNode;
  bgMusicGainNodeRef : option GainNode;
  bgMusicMonitorGainNodeRef : option GainNode
}.

(** The mute-monitor-during-export effect. *)
Definition muteMonitorEffect (isExporting : bool) (config : VideoConfig)
  (g : AudioGraph) : AudioGraph :=
  match audioContextRef g with
  | None => g
  | Some ctx =>
      let shouldMute := isExporting && muteOnExport config in
      let targetGain := if shouldMute then 0 else 0.95 in
      let rampTime := 0.1 in
      let bgTarget := if shouldMute then 0 else bgMusicVolume config in
      {| audioContextRef := audioContextRef g;
         mainAudioGainNodeRef := mainAudioGainNodeRef g;
         monitorGainNodeRef :=
           option_map
             (fun n => setTargetAtTime n targetGain (contextTime ctx) rampTime)
             (monitorGainNodeRef g);
         bgMusicGainNodeRef := bgMusicGainNodeRef g;
         bgMusicMonitorGainNodeRef :=
           option_map
             (fun n => setTargetAtTime n bgTarget (contextTime ctx) rampTime)
             (bgMusicMonitorGainNodeRef g) |}
  end.

(* ================================================================== *)
(** ** Player state *)

Module Audio.
(** An [HTMLAudioElement], as far as the player reads and drives it.
    [duration] is [None] while it is not a finite number. *)
Record Element := {
  paused : bool;
  ended : bool;
  currentTime : number;
  duration : option number
}.

Definition play (a : Element) : Element :=
  {| paused := false; ended := ended a;
     currentTime := currentTime a; duration := duration a |}.

Definition pause (a : Element) : Element :=
  {| paused := true; ended := ended a;
     currentTime := currentTime a; duration := duration a |}.

Definition seek (a : Element) (t : number) : Element :=
  {| paused := paused a; ended := ended a;
     currentTime := t; duration := duration a |}.
End Audio.

Inductive RecorderState := inactive | recording | paused.

(** React state, refs and the console of one player instance.
    [fallbackTimer] counts the fallback safety timeouts that are pending:
    nothing ever clears one, so the timeout of an earlier export can still
    be pending during a later one. *)
Record PlayerState := {
  isPlaying : bool;
  isExporting : bool;
  currentTime : number;
  audioDuration : number;
  isAudioReady : bool;
  audioError : bool;
  lastTimeRef : number;
  currentTimeRef : number;
  audioRef : option Audio.Element;
  bgMusicRef : option Audio.Element;
  mediaRecorderRef : option RecorderState;
  fallbackTimer : nat;
  console : list (jsstring * jsstring)
}.

Definition setIsPlaying (b : bool) (st : PlayerState) : PlayerState :=
  {| isPlaying := b; isExporting := isExporting st;
     currentTime := currentTime st; audioDuration := audioDuration st;
     isAudioReady := isAudioReady st; audioError := audioError st;
     lastTimeRef := lastTimeRef st; currentTimeRef := currentTimeRef st;
     audioRef := audioRef st; bgMusicRef := bgMusicRef st;
     mediaRecorderRef := mediaRecorderRef st;
     fallbackTimer := fallbackTimer st; console := console st |}.

Definition setCurrentTime (t : number) (st : PlayerState) : PlayerState :=
  {| isPlaying := isPlaying st; isExporting := isExporting st;
     currentTime := t; audioDuration := audioDuration st;
     isAudioReady := isAudioReady st; audioError := audioError st;
     lastTimeRef := lastTimeRef st; currentTimeRef := currentTimeRef st;
     audioRef := audioRef st; bgMusicRef := bgMusicRef st;
     mediaRecorderRef := mediaRecorderRef st;
     fallbackTimer := fallbackTimer st; console := console st |}.

Definition setLastTimeRef (t : number) (st : PlayerState) : PlayerState :=
  {| isPlaying := isPlaying st; isExporting := isExporting st;
     currentTime := currentTime st; audioDuration := audioDuration st;
     isAudioReady := isAudioReady st; audioError := audioError st;
     lastTimeRef := t; currentTimeRef := currentTimeRef st;
     audioRef := audioRef st; bgMusicRef := bgMusicRef st;
     mediaRecorderRef := mediaRecorderRef st;
     fallbackTimer := fallbackTimer st; console := console st |}.

Definition setCurrentTimeRef (t : number) (st : PlayerState) : PlayerState :=
  {| isPlaying := isPlaying st; isExporting := isExporting st;
     currentTime := currentTime st; audioDuration := audioDuration st;
     isAudioReady := isAudioReady st; audioError := audioError st;
     lastTimeRef := lastTimeRef st; currentTimeRef := t;
     audioRef := audioRef st; bgMusicRef := bgMusicRef st;
     mediaRecorderRef := mediaRecorderRef st;
     fallbackTimer := fallbackTimer st; console := console st |}.

Definition setAudio (a : option Audio.Element) (st : PlayerState)
  : PlayerState :=
  {| isPlaying := isPlaying st; isExporting := isExporting st;
     currentTime := currentTime st; audioDuration := audioDuration st;
     isAudioReady := isAudioReady st; audioError := audioError st;
     lastTimeRef := lastTimeRef st; currentTimeRef := currentTimeRef st;
     audioRef := a; bgMusicRef := bgMusicRef st;
     mediaRecorderRef := mediaRecorderRef st;
     fallbackTimer := fallbackTimer st; console := console st |}.

Definition setBgMusic (a : option Audio.Element) (st : PlayerState)
  : PlayerState :=
  {| isPlaying := isPlaying st; isExporting := isExporting st;
     currentTime := currentTime st; audioDuration := audioDuration st;
     isAudioReady := isAudioReady st; audioError := audioError st;
     lastTimeRef := lastTimeRef st; currentTimeRef := currentTimeRef st;
     audioRef := audioRef st; bgMusicRef := a;
     mediaRecorderRef := mediaRecorderRef st;
     fallbackTimer := fallbackTimer st; console := console st |}.

Definition setRecorder (r : option RecorderState) (timer : nat)
  (st : PlayerState) : PlayerState :=
  {| isPlaying := isPlaying st; isExporting := isExporting st;
     currentTime := currentTime st; audioDuration := audioDuration st;
     isAudioReady := isAudioReady st; audioError := audioError st;
     lastTimeRef := lastTimeRef st; currentTimeRef := currentTimeRef st;
     audioRef := audioRef st; bgMusicRef := bgMusicRef st;
     mediaRecorderRef := r;
     fallbackTimer := timer; console := console st |}.

Definition consoleError (msg reason : jsstring) (st : PlayerState)
  : PlayerState :=
  {| isPlaying := isPlaying st; isExporting := isExporting st;
     currentTime := currentTime st; audioDuration := audioDuration st;
     isAudioReady := isAudioReady st; audioError := audioError st;
     lastTimeRef := lastTimeRef st; currentTimeRef := currentTimeRef st;
     audioRef := audioRef st; bgMusicRef := bgMusicRef st;
     mediaRecorderRef := mediaRecorderRef st;
     fallbackTimer := fallbackTimer st;
     console := console st ++ [(msg, reason)] |}.

(* ================================================================== *)
(** ** Start/stop audio effect *)

(** How a handler ends: normally, or with an exception or a rejection that
    nobody handled. *)
Inductive Completion (A : Type) :=
| Normal (a : A)
| Abrupt (reason : jsstring).
Arguments Normal {A} a.
Arguments Abrupt {A} reason.

Definition bind {A B} (c : Completion A) (k : A -> Completion B)
  : Completion B :=
  match c with
  | Normal a => k a
  | Abrupt e => Abrupt e
  end.

Notation "x <- c ;; k" := (bind c (fun x => k))
  (at level 61, c at next level, right associativity).

(** What the promise returned by [play()] settles to. *)
Inductive PlayResult := Fulfilled | Rejected (reason : jsstring).

(** [el.play()] followed by [.catch(onRejected)] when a handler is given.
    A rejection without a handler is an unhandled rejection. *)
Definition play_catch (r : PlayResult) (el : Audio.Element)
  (onRejected : option (jsstring -> PlayerState -> PlayerState))
  (st : PlayerState) : Completion (Audio.Element * PlayerState) :=
  match r with
  | Fulfilled => Normal (Audio.play el, st)
  | Rejected e =>
      match onRejected with
      | Some h => Normal (el, h e st)
      | None => Abrupt e
      end
  end.

(** The handler given to [audioRef.current.play().catch]. *)
Definition onPlaybackFailed (e : jsstring) (st : PlayerState) : PlayerState :=
  setIsPlaying false (consoleError (str "Playback failed:") e st).

(** The start/stop audio effect.  [now] is [performance.now()] and
    [playMain], [playBg] are the outcomes of the two [play()] calls.  The
    state of the audio context is not part of the player state, so resuming
    a suspended context is left out. *)
Definition startStopAudioEffect (config : VideoConfig) (now : number)
  (playMain playBg : PlayResult) (st : PlayerState)
  : Completion PlayerState :=
  if isExporting st then Normal st
  else if isPlaying st then
    let st := setLastTimeRef now st in
    st <- match audioRef st with
          | Some a =>
              if truthy_opt_str (audioUrl config) && isAudioReady st
                 && negb (audioError st)
              then
                r <- play_catch playMain a (Some onPlaybackFailed) st ;;
                Normal (setAudio (Some (fst r)) (snd r))
              else Normal st
          | None => Normal st
          end ;;
    match bgMusicRef st with
    | Some b =>
        if truthy_opt_str (bgMusicUrl config) then
          let b :=
            match Audio.duration b with
            | Some d => if gtb d 0
                        then Audio.seek b (rem (currentTime st) d)
                        else b
            | None => b
            end in
          r <- play_catch playBg b (Some (fun _ st => st)) st ;;
          Normal (setBgMusic (Some (fst r)) (snd r))
        else Normal st
    | None => Normal st
    end
  else
    let st :=
      match audioRef st with
      | Some a => if truthy_opt_str (audioUrl config)
                  then setAudio (Some (Audio.pause a)) st else st
      | None => st
      end in
    Normal
      match bgMusicRef st with
      | Some b => if truthy_opt_str (bgMusicUrl config)
                  then setBgMusic (Some (Audio.pause b)) st else st
      | None => st
      end.

(* ================================================================== *)
(** ** Export loop *)

(** [finishExport]: stops the recorder when it is recording. *)
Definition finishExport (st : PlayerState) : PlayerState :=
  match mediaRecorderRef st with
  | Some recording => setRecorder (Some inactive) (fallbackTimer st) st
  | _ => st
  end.

(** The end of [startRecording]: [recorder.start()] and the fallback safety
    timeout.  The test reads the [config] and the [audioError] of the render
    in which Export was clicked, not the current ones, and the new timeout
    is added to those still pending. *)
Definition startRecorder (config : VideoConfig) (capturedAudioError : bool)
  (st : PlayerState) : PlayerState :=
  setRecorder (Some recording)
    (if negb (truthy_opt_str (audioUrl config)) || capturedAudioError
     then S (fallbackTimer st) else fallbackTimer st) st.

(** The [isEnded] test of a tick, on the state after the clock advanced. *)
Definition isEnded (ctx : option Context2D) (config : VideoConfig)
  (st : PlayerState) : bool :=
  (truthy_opt_str (audioUrl config)
   && match audioRef st with Some a => Audio.ended a | None => false end)
  || geb (currentTimeRef st)
         (maxDuration ctx config (audioDuration st) + 0.5).

(** [worker.onmessage]; [now] is [performance.now()]. *)
Definition workerTick (ctx : option Context2D) (config : VideoConfig)
  (now : number) (st : PlayerState) : PlayerState :=
  let delta := (now - lastTimeRef st) / 1000 in
  let st := setLastTimeRef now st in
  let st := setCurrentTimeRef (currentTimeRef st + delta) st in
  let st := setCurrentTime (currentTimeRef st) st in
  if isEnded ctx config st then finishExport st else st.

(** What can happen while exporting: a tick of the worker, a click on
    Cancel, one of the pending fallback timeouts firing, the primary audio
    element moving on by itself. *)
Inductive ExportEvent :=
| WorkerTick (now : number)
| CancelClick
| FallbackTimeout
| AudioProgress (a : Audio.Element).

Definition export_step (ctx : option Context2D) (config : VideoConfig)
  (st : PlayerState) (e : ExportEvent) : PlayerState :=
  match e with
  | WorkerTick now => workerTick ctx config now st
  | CancelClick => finishExport st
  | FallbackTimeout =>
      match fallbackTimer st with
      | S pending => finishExport (setRecorder (mediaRecorderRef st) pending st)
      | O => st
      end
  | AudioProgress a =>
      match audioRef st with
      | Some _ => setAudio (Some a) st
      | None => st
      end
  end.

Definition is_recording (st : PlayerState) : bool :=
  match mediaRecorderRef st with Some recording => true | _ => false end.


(* ================================================================== *)
(** ** Vocabulary for the wrapping properties *)

(** A whitespace token: nothing is left of its text after [trim]. *)
Definition is_blank (seg : Segment) : bool :=
  negb (Nat.ltb 0 (List.length (trim (text seg)))).

Fixpoint drop_blank (segs : list Segment) : list Segment :=
  match segs with
  | [] => []
  | s :: segs' => if is_blank s then drop_blank segs' else segs
  end.

(** The segments of a line without its trailing whitespace tokens. *)
Definition content (segs : list Segment) : list Segment :=
  rev (drop_blank (rev segs)).

(** Widths added up from 0 in the order of the segments, the way the
    wrapping loop accumulates [currentWidth]. *)
Definition sum_width (segs : list Segment) : number :=
  fold_left (fun acc s => acc + width s) segs 0.

(** The line is within [maxWidth], or is a single token wider than it. *)
Definition line_fits (maxWidth : number) (l : Line) : Prop :=
  line_width l <= maxWidth
  \/ exists s, segments l = [s] /\ maxWidth < width s.

(** The same for the line up to its last non-whitespace token; the recorded
    width of the line is the sum of all its segments. *)
Definition line_content_fits (maxWidth : number) (l : Line) : Prop :=
  line_width l = sum_width (segments l)
  /\ (sum_width (content (segments l)) <= maxWidth
      \/ exists s, content (segments l) = [s] /\ maxWidth < width s).

(* ================================================================== *)
(** ** Sample inputs *)

(** A context in which every code unit is as wide as the font size. *)
Definition monospace : Context2D :=
  fun font s => font_px font * inject_Z (Z.of_nat (List.length s)).

(** Two hard lines, 100px font, explicit speed 50, no audio, no ticker. *)
Definition hello_world : VideoConfig :=
  {| aspectRatio := R16_9;
     script := str "Hello" ++ [10%N] ++ str "World";
     fontFamily := str "Inter, sans-serif";
     fontSize := 100; isBold := false; lineHeight := 1.5;
     scrollSpeed := 50; autoScrollSpeed := false;
     audioUrl := None; bgMusicUrl := None;
     bgMusicVolume := 0.5; mainAudioVolume := None;
     muteOnExport := true; fps := 30;
     tickerText := []; tickerSpeed := 100; tickerFontSize := 40 |}.

Definition with_script (s : jsstring) (c : VideoConfig) : VideoConfig :=
  {| aspectRatio := aspectRatio c; script := s;
     fontFamily := fontFamily c; fontSize := fontSize c;
     isBold := isBold c; lineHeight := lineHeight c;
     scrollSpeed := scrollSpeed c; autoScrollSpeed := autoScrollSpeed c;
     audioUrl := audioUrl c; bgMusicUrl := bgMusicUrl c;
     bgMusicVolume := bgMusicVolume c; mainAudioVolume := mainAudioVolume c;
     muteOnExport := muteOnExport c; fps := fps c;
     tickerText := tickerText c; tickerSpeed := tickerSpeed c;
     tickerFontSize := tickerFontSize c |}.

Definition with_speed (speed : number) (auto : bool) (c : VideoConfig)
  : VideoConfig :=
  {| aspectRatio := aspectRatio c; script := script c;
     fontFamily := fontFamily c; fontSize := fontSize c;
     isBold := isBold c; lineHeight := lineHeight c;
     scrollSpeed := speed; autoScrollSpeed := auto;
     audioUrl := audioUrl c; bgMusicUrl := bgMusicUrl c;
     bgMusicVolume := bgMusicVolume c; mainAudioVolume := mainAudioVolume c;
     muteOnExport := muteOnExport c; fps := fps c;
     tickerText := tickerText c; tickerSpeed := tickerSpeed c;
     tickerFontSize := tickerFontSize c |}.

Definition with_audio (url : option jsstring) (c : VideoConfig) : VideoConfig :=
  {| aspectRatio := aspectRatio c; script := script c;
     fontFamily := fontFamily c; fontSize := fontSize c;
     isBold := isBold c; lineHeight := lineHeight c;
     scrollSpeed := scrollSpeed c; autoScrollSpeed := autoScrollSpeed c;
     audioUrl := url; bgMusicUrl := bgMusicUrl c;
     bgMusicVolume := bgMusicVolume c; mainAudioVolume := mainAudioVolume c;
     muteOnExport := muteOnExport c; fps := fps c;
     tickerText := tickerText c; tickerSpeed := tickerSpeed c;
     tickerFontSize := tickerFontSize c |}.

Definition with_ticker (t : jsstring) (c : VideoConfig) : VideoConfig :=
  {| aspectRatio := aspectRatio c; script := script c;
     fontFamily := fontFamily c; fontSize := fontSize c;
     isBold := isBold c; lineHeight := lineHeight c;
     scrollSpeed := scrollSpeed c; autoScrollSpeed := autoScrollSpeed c;
     audioUrl := audioUrl c; bgMusicUrl := bgMusicUrl c;
     bgMusicVolume := bgMusicVolume c; mainAudioVolume := mainAudioVolume c;
     muteOnExport := muteOnExport c; fps := fps c;
     tickerText := t; tickerSpeed := tickerSpeed c;
     tickerFontSize := tickerFontSize c |}.

Definition voice_url : jsstring := str "blob:voice".

(** A graph with all four gain nodes, the context clock at 12 s. *)
Definition plain_gain (v : number) : GainNode :=
  {| gain := {| value := v; automation := [] |} |}.

Definition full_graph : AudioGraph :=
  {| audioContextRef := Some {| contextTime := 12 |};
     mainAudioGainNodeRef := Some (plain_gain 1);
     monitorGainNodeRef := Some (plain_gain 0.95);
     bgMusicGainNodeRef := Some (plain_gain 0.5);
     bgMusicMonitorGainNodeRef := Some (plain_gain 0.5) |}.

Definition fresh_audio : Audio.Element :=
  {| Audio.paused := true; Audio.ended := false;
     Audio.currentTime := 0; Audio.duration := Some 10 |}.

(** Playing in the foreground with a loaded primary track. *)
Definition playing_state : PlayerState :=
  {| isPlaying := true; isExporting := false; currentTime := 0;
     audioDuration := 10; isAudioReady := true; audioError := false;
     lastTimeRef := 0; currentTimeRef := 0;
     audioRef := Some fresh_audio; bgMusicRef := None;
     mediaRecorderRef := None; fallbackTimer := 0%nat; console := [] |}.

(** Exporting without audio, the accumulator at [t] seconds, the recorder
    running and one fallback timeout pending. *)
Definition exporting_state (t : number) : PlayerState :=
  {| isPlaying := true; isExporting := true; currentTime := t;
     audioDuration := 0; isAudioReady := false; audioError := false;
     lastTimeRef := t * 1000; currentTimeRef := t;
     audioRef := Some fresh_audio; bgMusicRef := None;
     mediaRecorderRef := Some recording; fallbackTimer := 1%nat;
     console := [] |}.

(* ================================================================== *)
(** ** Vocabulary for the text of a layout *)

(** The characters of a line and of a whole layout, in reading order. *)
Definition line_text (l : Line) : jsstring :=
  List.concat (map text (segments l)).

Definition lines_text (ls : list Line) : jsstring :=
  List.concat (map line_text ls).

(** A run without whitespace, and a run of whitespace only. *)
Definition is_word (s : jsstring) : bool :=
  forallb (fun c => negb (is_space c)) s.

Definition is_gap (s : jsstring) : bool := forallb is_space s.

(** The text of the pushed lines followed by that of the running line. *)
Definition wrap_text (w : Wrap) : jsstring :=
  lines_text (finalLines w) ++ List.concat (map text (currentLine w)).

(** The hard lines of a script: asterisks removed, split at newlines. *)
Definition rawLines (config : VideoConfig) : list jsstring :=
  split 10%N (remove_chars (N.eqb 42) (script config)).

(* ================================================================== *)
(** ** Main text of [renderFrame] *)

(** [config.textAlign], a field of the configuration that the record above
    leaves out; anything but center and right is drawn from the left. *)
Inductive TextAlign := AlignLeft | AlignCenter | AlignRight.

(** Body of [line.segments.forEach]: the commands so far and [xPos]. *)
Definition drawSegment (yPos : number) (st : list DrawCmd * number)
  (seg : Segment) : list DrawCmd * number :=
  (fst st ++ [FillText (text seg) (snd st) yPos], snd st + width seg).

(** Where the first segment of a line is drawn. *)
Definition lineStartX (config : VideoConfig) (align : TextAlign) (line : Line)
  : number :=
  let centerX := CANVAS_WIDTH config / 2 in
  match align with
  | AlignCenter => centerX - line_width line / 2
  | AlignRight => (CANVAS_WIDTH config - PADDING_X config) - line_width line
  | AlignLeft => PADDING_X config
  end.

(** Body of [lines.forEach]: the commands so far and [yPos]. *)
Definition drawLine (config : VideoConfig) (align : TextAlign)
  (lineHeight : number) (st : list DrawCmd * number) (line : Line)
  : list DrawCmd * number :=
  let yPos := snd st in
  ( if gtb (yPos + lineHeight) 0 && Qle_bool yPos (CANVAS_HEIGHT config)
    then fst (fold_left (drawSegment yPos) (segments line)
                (fst st, lineStartX config align line))
    else fst st,
    yPos + lineHeight ).

(** Step 3 of [renderFrame]: the text commands for the given lines at the
    given scroll speed. *)
Definition renderText (config : VideoConfig) (align : TextAlign)
  (ls : list Line) (speed time : number) : list DrawCmd :=
  let scrollY := CANVAS_HEIGHT config - time * speed in
  let lineHeight := fontSize config * lineHeight config in
  fst (fold_left (drawLine config align lineHeight) ls ([], scrollY)).

(** [yPos] when the loop over the lines is done: the lower edge of the band
    of the last line. *)
Definition textEndY (config : VideoConfig) (align : TextAlign)
  (ls : list Line) (speed time : number) : number :=
  let scrollY := CANVAS_HEIGHT config - time * speed in
  let lineHeight := fontSize config * lineHeight config in
  snd (fold_left (drawLine config align lineHeight) ls ([], scrollY)).

(** The frame's main text, with the lines and the speed of the component. *)
Definition renderMainText (ctx : option Context2D) (config : VideoConfig)
  (align : TextAlign) (audioDuration time : number) : list DrawCmd :=
  renderText config align (lines ctx config)
    (effectiveScrollSpeed ctx config audioDuration) time.

(** Natural size of a loaded image. *)
Record Image := { img_width : number; img_height : number }.

(** The vertical position of a text command lies in the visible band. *)
Definition text_in_band (config : VideoConfig) (c : DrawCmd) : Prop :=
  match c with
  | FillText _ _ y =>
      0 < y + fontSize config * lineHeight config /\ y <= CANVAS_HEIGHT config
  | FillRect _ _ _ _ => True
  end.

(* ================================================================== *)
(** ** Runs of the export loop *)

(** The export loop fed a sequence of events, oldest first. *)
Definition export_run (ctx : option Context2D) (config : VideoConfig)
  (st : PlayerState) (events : list ExportEvent) : PlayerState :=
  fold_left (export_step ctx config) events st.

(** The writes to the clock of an export: a tick of the worker, and the
    assignment [lastTimeRef.current = performance.now()] that
    [startRecording] makes and that the animation effect makes each time it
    sets a worker up. *)
Inductive ClockEvent :=
| Tick (now : number)
| Restart (now : number).

Definition clock_time (e : ClockEvent) : number :=
  match e with Tick now => now | Restart now => now end.

Definition clock_step (ctx : option Context2D) (config : VideoConfig)
  (st : PlayerState) (e : ClockEvent) : PlayerState :=
  match e with
  | Tick now => workerTick ctx config now st
  | Restart now => setLastTimeRef now st
  end.

Definition clock_run (ctx : option Context2D) (config : VideoConfig)
  (st : PlayerState) (events : list ClockEvent) : PlayerState :=
  fold_left (clock_step ctx config) events st.

(** Readings of [performance.now()] that never go back, from [t] on. *)
Fixpoint nondecreasing_from (t : number) (ts : list number) : Prop :=
  match ts with
  | [] => True
  | t' :: ts' => t <= t' /\ nondecreasing_from t' ts'
  end.

(** Further sample inputs: a configuration with background music only, and
    a music element with a loop of 8 s. *)
Definition music_config : VideoConfig :=
  {| aspectRatio := R16_9; script := str "Hello";
     fontFamily := str "Inter"; fontSize := 100; isBold := false;
     lineHeight := 1.5; scrollSpeed := 50; autoScrollSpeed := false;
     audioUrl := None; bgMusicUrl := Some (str "blob:music");
     bgMusicVolume := 0.5; mainAudioVolume := None; muteOnExport := true;
     fps := 30; tickerText := []; tickerSpeed := 100;
     tickerFontSize := 40 |}.

Definition looping_music : Audio.Element :=
  {| Audio.paused := true; Audio.ended := false;
     Audio.currentTime := 0; Audio.duration := Some 8 |}.

(* ================================================================== *)
(** ** Foreground loop and export life cycle *)

Definition setIsExporting (b : bool) (st : PlayerState) : PlayerState :=
  {| isPlaying := isPlaying st; isExporting := b;
     currentTime := currentTime st; audioDuration := audioDuration st;
     isAudioReady := isAudioReady st; audioError := audioError st;
     lastTimeRef := lastTimeRef st; currentTimeRef := currentTimeRef st;
     audioRef := audioRef st; bgMusicRef := bgMusicRef st;
     mediaRecorderRef := mediaRecorderRef st;
     fallbackTimer := fallbackTimer st; console := console st |}.

(** The wall-clock branch of the foreground loop: the time advances by the
    delta since the previous frame. *)
Definition wallClockStep (now : number) (st : PlayerState) : PlayerState :=
  let delta := (now - lastTimeRef st) / 1000 in
  let st := setLastTimeRef now st in
  let st := setCurrentTimeRef (currentTimeRef st + delta) st in
  setCurrentTime (currentTimeRef st) st.

(** The first half of [loop]: where the time of the frame comes from. *)
Definition frameTime (config : VideoConfig) (now : number) (st : PlayerState)
  : PlayerState :=
  match audioRef st with
  | Some a =>
      if truthy_opt_str (audioUrl config) && isAudioReady st
         && negb (audioError st)
      then
        let t := Audio.currentTime a in
        setCurrentTime t (setCurrentTimeRef t st)
      else wallClockStep now st
  | None => wallClockStep now st
  end.

(** One run of [loop], the [requestAnimationFrame] callback of the
    foreground regime.  [now] is [performance.now()]; the boolean says
    whether the next frame was requested. *)
Definition animationFrame (ctx : option Context2D) (config : VideoConfig)
  (now : number) (st : PlayerState) : PlayerState * bool :=
  let maxDuration := maxDuration ctx config (audioDuration st) in
  let st := frameTime config now st in
  if truthy_opt_str (audioUrl config)
     && match audioRef st with Some a => Audio.ended a | None => false end
  then (setIsPlaying false st, false)
  else if gtb maxDuration 0 && geb (currentTimeRef st) maxDuration
          && negb (truthy_opt_str (audioUrl config))
  then (setIsPlaying false st, false)
  else (st, true).

(** The effect that copies the time state into the ref, outside exports. *)
Definition syncRefEffect (st : PlayerState) : PlayerState :=
  if negb (isExporting st) then setCurrentTimeRef (currentTime st) st else st.

(** An element paused and put back to position 0; pausing first and
    seeking first give the same element. *)
Definition rewind (a : Audio.Element) : Audio.Element :=
  Audio.pause (Audio.seek a 0).

(** [handleExport], up to the timer that calls [startRecording]. *)
Definition handleExport (st : PlayerState) : PlayerState :=
  if isExporting st then st
  else
    let st := setIsExporting true st in
    let st := setCurrentTime 0 st in
    let st := setCurrentTimeRef 0 st in
    let st := setAudio (option_map rewind (audioRef st)) st in
    setBgMusic (option_map rewind (bgMusicRef st)) st.

(** [startRecording].  [playMain] and [playBg] are the outcomes of the two
    [play()] calls, awaited together inside a [try] with an empty [catch];
    [canvas] says whether the canvas element is there and [recorderOk]
    whether the [MediaRecorder] constructor returned.  The result carries
    the messages shown with [alert].  The function runs from the timer set
    by [handleExport], so its [config] and its [audioError] are those of
    the render in which Export was clicked: [capturedAudioError] is that
    flag, whatever [audioError] has become since. *)
Definition startRecordingWith (config : VideoConfig)
  (capturedAudioError : bool) (now : number)
  (playMain playBg : PlayResult) (canvas recorderOk : bool)
  (st : PlayerState) : Completion (PlayerState * list jsstring) :=
  st <- match audioRef st with
        | Some a =>
            if truthy_opt_str (audioUrl config) && negb capturedAudioError
            then
              r <- play_catch playMain a (Some (fun _ st => st)) st ;;
              Normal (setAudio (Some (fst r)) (snd r))
            else Normal st
        | None => Normal st
        end ;;
  st <- match bgMusicRef st with
        | Some b =>
            if truthy_opt_str (bgMusicUrl config)
            then
              r <- play_catch playBg b (Some (fun _ st => st)) st ;;
              Normal (setBgMusic (Some (fst r)) (snd r))
            else Normal st
        | None => Normal st
        end ;;
  let st := setIsPlaying true st in
  let st := setLastTimeRef now st in
  if negb canvas then Normal (st, [])
  else if negb recorderOk
  then Normal (setIsPlaying false (setIsExporting false st),
               [str "Recording failed. Try Chrome or Edge."])
  else Normal (startRecorder config capturedAudioError st, []).

(** [startRecording] when the error flag has not changed between the click
    on Export and the call. *)
Definition startRecording (config : VideoConfig) (now : number)
  (playMain playBg : PlayResult) (canvas recorderOk : bool)
  (st : PlayerState) : Completion (PlayerState * list jsstring) :=
  startRecordingWith config (audioError st) now playMain playBg canvas
    recorderOk st.

(** The state part of [recorder.onstop]. *)
Definition recorderOnStop (st : PlayerState) : PlayerState :=
  let st := setIsExporting false st in
  let st := setIsPlaying false st in
  let st := setCurrentTime 0 st in
  let st := setAudio (option_map rewind (audioRef st)) st in
  setBgMusic (option_map rewind (bgMusicRef st)) st.

(* ================================================================== *)
(** ** Container negotiation and the name of the download *)

(** The candidate types of [getSupportedMimeType], in order of preference;
    code 34 is the double quote around the codec list of the first one. *)
Definition mimeCandidates : list jsstring :=
  [ str "video/mp4; codecs=" ++ [34%N] ++ str "avc1.42E01E, mp4a.40.2"
      ++ [34%N];
    str "video/mp4";
    str "video/webm;codecs=h264";
    str "video/webm;codecs=vp9,opus";
    str "video/webm" ].

(** [isTypeSupported] stands for [MediaRecorder.isTypeSupported]. *)
Definition getSupportedMimeType (isTypeSupported : jsstring -> bool)
  : jsstring :=
  match find isTypeSupported mimeCandidates with
  | Some type => type
  | None => str "video/webm"
  end.

Fixpoint startsWith (needle hay : jsstring) : bool :=
  match needle, hay with
  | [], _ => true
  | _ :: _, [] => false
  | x :: needle', y :: hay' => N.eqb x y && startsWith needle' hay'
  end.

(** [hay.includes(needle)] *)
Fixpoint includes (needle hay : jsstring) : bool :=
  startsWith needle hay
  || match hay with
     | [] => false
     | _ :: hay' => includes needle hay'
     end.

(** The extension chosen in [recorder.onstop]. *)
Definition extension (mimeType : jsstring) : jsstring :=
  if includes (str "mp4") mimeType then str "mp4" else str "webm".

(** The base name chosen in [recorder.onstop]; [exportFileName] is
    [config.exportFileName], which may be missing. *)
Definition baseName (exportFileName : option jsstring) : jsstring :=
  match exportFileName with
  | Some n => if truthy_str n && negb (eqb (trim n) []) then n
              else str "rakib"
  | None => str "rakib"
  end.

(** [a.download] *)
Definition downloadName (exportFileName : option jsstring)
  (mimeType : jsstring) : jsstring :=
  baseName exportFileName ++ str "." ++ extension mimeType.

(* ================================================================== *)
(** ** Dragging the overlays *)

(** The fields of the configuration that hit testing reads and dragging
    writes; the spread in the [onChange] calls copies every other field of
    the configuration unchanged. *)
Record Overlays := {
  logoUrl : option jsstring;
  logoX : number;
  logoY : number;
  logoScale : number;
  watermarkUrl : option jsstring;
  watermarkX : number;
  watermarkY : number;
  watermarkScale : number;
  watermarkText : jsstring;
  watermarkTextX : number;
  watermarkTextY : number;
  watermarkTextFontSize : number
}.

(** [getBoundingClientRect()] of the canvas and the mouse position. *)
Record Rect := {
  rect_left : number;
  rect_top : number;
  rect_width : number;
  rect_height : number
}.

Record MouseEvent := { clientX : number; clientY : number }.

Inductive DragTarget := TargetLogo | TargetWatermarkImage | TargetWatermarkText.

(** The four drag refs. *)
Record DragState := {
  isDraggingRef : bool;
  draggingTargetRef : option DragTarget;
  dragStartRef : number * number;
  initialPosRef : number * number
}.

(** The bounding box has a width and a height.  When it has not, the
    scale factors of the two handlers are infinite and the mouse position
    is infinite or not a number. *)
Definition hasSize (rect : Rect) : bool :=
  truthy_num (rect_width rect) && truthy_num (rect_height rect).

(** The mouse position in canvas pixels, for a bounding box that has a
    size. *)
Definition canvasPoint (config : VideoConfig) (rect : Rect) (e : MouseEvent)
  : number * number :=
  let scaleX := CANVAS_WIDTH config / rect_width rect in
  let scaleY := CANVAS_HEIGHT config / rect_height rect in
  ((clientX e - rect_left rect) * scaleX, (clientY e - rect_top rect) * scaleY).

(** The point lies in the box with corner [(x, y)], borders included. *)
Definition inBox (p : number * number) (x y w h : number) : bool :=
  geb (fst p) x && Qle_bool (fst p) (x + w)
  && geb (snd p) y && Qle_bool (snd p) (y + h).

Definition startDrag (target : DragTarget) (p initial : number * number)
  : DragState :=
  {| isDraggingRef := true; draggingTargetRef := Some target;
     dragStartRef := p; initialPosRef := initial |}.

Definition watermarkFont (ov : Overlays) : Font :=
  {| font_bold := true; font_px := watermarkTextFontSize ov;
     font_families := [str "Inter"; str "sans-serif"] |}.

Definition logoHit (ov : Overlays) (logoImage : option Image)
  (p : number * number) : bool :=
  match logoImage with
  | Some img =>
      truthy_opt_str (logoUrl ov)
      && inBox p (logoX ov) (logoY ov)
               (img_width img * logoScale ov) (img_height img * logoScale ov)
  | None => false
  end.

Definition watermarkHit (ov : Overlays) (watermarkImage : option Image)
  (p : number * number) : bool :=
  match watermarkImage with
  | Some img =>
      truthy_opt_str (watermarkUrl ov)
      && inBox p (watermarkX ov) (watermarkY ov)
               (img_width img * watermarkScale ov)
               (img_height img * watermarkScale ov)
  | None => false
  end.

Definition textHit (ov : Overlays) (ctx : option Context2D)
  (p : number * number) : bool :=
  match ctx with
  | Some ctx =>
      truthy_str (watermarkText ov)
      && inBox p (watermarkTextX ov) (watermarkTextY ov)
               (ctx (watermarkFont ov) (watermarkText ov))
               (watermarkTextFontSize ov)
  | None => false
  end.

(** [handleMouseDown]: [canvas] is the bounding box of the canvas when the
    canvas is there, [ctx] its 2D context, and the two images are the
    loaded logo and watermark.  Over a box without a size the mouse
    position is infinite or not a number, and no hit test succeeds. *)
Definition handleMouseDown (config : VideoConfig) (ov : Overlays)
  (canvas : option Rect) (ctx : option Context2D)
  (logoImage watermarkImage : option Image) (e : MouseEvent)
  (ds : DragState) : DragState :=
  match canvas with
  | None => ds
  | Some rect =>
      if negb (hasSize rect) then ds
      else
        let p := canvasPoint config rect e in
        if logoHit ov logoImage p
        then startDrag TargetLogo p (logoX ov, logoY ov)
        else if watermarkHit ov watermarkImage p
        then startDrag TargetWatermarkImage p (watermarkX ov, watermarkY ov)
        else if textHit ov ctx p
        then startDrag TargetWatermarkText p
               (watermarkTextX ov, watermarkTextY ov)
        else ds
  end.

Definition moveLogo (ov : Overlays) (x y : number) : Overlays :=
  {| logoUrl := logoUrl ov; logoX := x; logoY := y;
     logoScale := logoScale ov;
     watermarkUrl := watermarkUrl ov; watermarkX := watermarkX ov;
     watermarkY := watermarkY ov; watermarkScale := watermarkScale ov;
     watermarkText := watermarkText ov;
     watermarkTextX := watermarkTextX ov;
     watermarkTextY := watermarkTextY ov;
     watermarkTextFontSize := watermarkTextFontSize ov |}.

Definition moveWatermark (ov : Overlays) (x y : number) : Overlays :=
  {| logoUrl := logoUrl ov; logoX := logoX ov; logoY := logoY ov;
     logoScale := logoScale ov;
     watermarkUrl := watermarkUrl ov; watermarkX := x;
     watermarkY := y; watermarkScale := watermarkScale ov;
     watermarkText := watermarkText ov;
     watermarkTextX := watermarkTextX ov;
     watermarkTextY := watermarkTextY ov;
     watermarkTextFontSize := watermarkTextFontSize ov |}.

Definition moveWatermarkText (ov : Overlays) (x y : number) : Overlays :=
  {| logoUrl := logoUrl ov; logoX := logoX ov; logoY := logoY ov;
     logoScale := logoScale ov;
     watermarkUrl := watermarkUrl ov; watermarkX := watermarkX ov;
     watermarkY := watermarkY ov; watermarkScale := watermarkScale ov;
     watermarkText := watermarkText ov;
     watermarkTextX := x;
     watermarkTextY := y;
     watermarkTextFontSize := watermarkTextFontSize ov |}.

(** What [handleMouseMove] gives to [onChange]: the configuration with the
    dragged overlay moved, or, over a bounding box without a size, a
    configuration in which a coordinate of that overlay is not a finite
    number. *)
Inductive Moved :=
| MovedTo (ov : Overlays)
| NotFinite (target : DragTarget).

(** [handleMouseMove]: the argument of the [onChange] call, if there is
    one.  [onChange] says whether the component was given the callback. *)
Definition handleMouseMove (config : VideoConfig) (ov : Overlays)
  (onChange : bool) (canvas : option Rect) (e : MouseEvent) (ds : DragState)
  : option Moved :=
  match canvas with
  | None => None
  | Some rect =>
      if negb (isDraggingRef ds) || negb onChange then None
      else
        match draggingTargetRef ds with
        | Some target =>
            if negb (hasSize rect) then Some (NotFinite target)
            else
              let p := canvasPoint config rect e in
              let dx := fst p - fst (dragStartRef ds) in
              let dy := snd p - snd (dragStartRef ds) in
              let newX := fst (initialPosRef ds) + dx in
              let newY := snd (initialPosRef ds) + dy in
              Some (MovedTo
                match target with
                | TargetLogo => moveLogo ov newX newY
                | TargetWatermarkImage => moveWatermark ov newX newY
                | TargetWatermarkText => moveWatermarkText ov newX newY
                end)
        | None => None
        end
  end.

(** [handleMouseUp], also bound to the mouse leaving the canvas. *)
Definition handleMouseUp (ds : DragState) : DragState :=
  {| isDraggingRef := false; draggingTargetRef := None;
     dragStartRef := dragStartRef ds; initialPosRef := initialPosRef ds |}.

(** Sample inputs: a logo of 200 x 100 at (100, 100), a watermark image at
    the same place, no text; the canvas shown at its natural size. *)
Definition sample_overlays : Overlays :=
  {| logoUrl := Some (str "blob:logo"); logoX := 100; logoY := 100;
     logoScale := 1;
     watermarkUrl := Some (str "blob:mark"); watermarkX := 100;
     watermarkY := 100; watermarkScale := 1;
     watermarkText := []; watermarkTextX := 0; watermarkTextY := 0;
     watermarkTextFontSize := 40 |}.

Definition sample_image : Image := {| img_width := 200; img_height := 100 |}.

Definition natural_rect : Rect :=
  {| rect_left := 0; rect_top := 0; rect_width := 1920; rect_height := 1080 |}.

Definition at_rest : DragState :=
  {| isDraggingRef := false; draggingTargetRef := None;
     dragStartRef := (0, 0); initialPosRef := (0, 0) |}.

(* ================================================================== *)
(** ** The project list of [App] *)

Module App.

Record Project := {
  id : jsstring;
  name : jsstring;
  createdAt : number;
  config : VideoConfig
}.

(** The two pieces of state of [App]. *)
Record State := {
  projects : list Project;
  activeProjectId : jsstring
}.

Definition ids (st : State) : list jsstring := map id (projects st).

(** The digits of [String(n)] for a non-negative integer. *)
Fixpoint uint_chars (u : Decimal.uint) : jsstring :=
  match u with
  | Decimal.Nil => []
  | Decimal.D0 u => 48%N :: uint_chars u
  | Decimal.D1 u => 49%N :: uint_chars u
  | Decimal.D2 u => 50%N :: uint_chars u
  | Decimal.D3 u => 51%N :: uint_chars u
  | Decimal.D4 u => 52%N :: uint_chars u
  | Decimal.D5 u => 53%N :: uint_chars u
  | Decimal.D6 u => 54%N :: uint_chars u
  | Decimal.D7 u => 55%N :: uint_chars u
  | Decimal.D8 u => 56%N :: uint_chars u
  | Decimal.D9 u => 57%N :: uint_chars u
  end.

Definition decimal (n : N) : jsstring := uint_chars (N.to_uint n).

(** [projects.find(p => p.id === activeProjectId) || projects[0]];
    [None] when there is no project at all. *)
Definition activeProject (st : State) : option Project :=
  match find (fun p => eqb (id p) (activeProjectId st)) (projects st) with
  | Some p => Some p
  | None => hd_error (projects st)
  end.

Definition withConfig (p : Project) (c : VideoConfig) : Project :=
  {| id := id p; name := name p; createdAt := createdAt p; config := c |}.

Definition withName (p : Project) (n : jsstring) : Project :=
  {| id := id p; name := n; createdAt := createdAt p; config := config p |}.

Definition updateProjectConfig (pid : jsstring) (newConfig : VideoConfig)
  (st : State) : State :=
  {| projects := map (fun p => if eqb (id p) pid then withConfig p newConfig
                               else p) (projects st);
     activeProjectId := activeProjectId st |}.

Definition updateConfig (newConfig : VideoConfig) (st : State) : State :=
  updateProjectConfig (activeProjectId st) newConfig st.

(** [handleCreateProject]; [nowId] and [nowCreated] are the two readings of
    [Date.now()] and [INITIAL_CONFIG] is the constant of that name. *)
Definition handleCreateProject (INITIAL_CONFIG : VideoConfig)
  (nowId nowCreated : N) (st : State) : State :=
  let newId := str "proj-" ++ decimal nowId in
  let newProject :=
    {| id := newId;
       name := str "Project "
               ++ decimal (N.of_nat (List.length (projects st) + 1));
       createdAt := inject_Z (Z.of_N nowCreated);
       config := INITIAL_CONFIG |} in
  {| projects := projects st ++ [newProject]; activeProjectId := newId |}.

(** [handleDeleteProject]; reading [newProjects[0].id] of an empty list is
    a [TypeError]. *)
Definition handleDeleteProject (pid : jsstring) (st : State)
  : Completion State :=
  if Nat.leb (List.length (projects st)) 1 then Normal st
  else
    let newProjects :=
      filter (fun p => negb (eqb (id p) pid)) (projects st) in
    if eqb (activeProjectId st) pid
    then match newProjects with
         | p :: _ =>
             Normal {| projects := newProjects; activeProjectId := id p |}
         | [] => Abrupt (str "TypeError")
         end
    else Normal {| projects := newProjects;
                   activeProjectId := activeProjectId st |}.

Definition handleRenameProject (pid newName : jsstring) (st : State) : State :=
  {| projects := map (fun p => if eqb (id p) pid then withName p newName
                               else p) (projects st);
     activeProjectId := activeProjectId st |}.

(** Sample state: two projects, the second one active. *)
Definition two_projects : State :=
  {| projects :=
       [ {| id := str "default-1"; name := str "Project 1";
            createdAt := 0; config := hello_world |};
         {| id := str "proj-17"; name := str "Project 2";
            createdAt := 17; config := music_config |} ];
     activeProjectId := str "proj-17" |}.

End App.

(* ================================================================== *)
(** ** Audio engine set-up: nodes and connections *)

(** The nodes of the graph: the two media element sources, the four
    gains, the media stream destination that feeds the recorder, and the
    context's destination (the speakers). *)
Inductive Node :=
| MainSource | MainGain | MonitorGain
| BgSource | BgGain | BgMonitorGain
| CaptureDest | DeviceOut.

Definition node_eqb (a b : Node) : bool :=
  match a, b with
  | MainSource, MainSource | MainGain, MainGain
  | MonitorGain, MonitorGain | BgSource, BgSource | BgGain, BgGain
  | BgMonitorGain, BgMonitorGain | CaptureDest, CaptureDest
  | DeviceOut, DeviceOut => true
  | _, _ => false
  end.

(** Which output is connected to which input. *)
Definition Edges := Node -> Node -> bool.

(** [a.connect(b)]: connecting twice is connecting once. *)
Definition connect (a b : Node) (e : Edges) : Edges :=
  fun x y => (node_eqb a x && node_eqb b y) || e x y.

(** [a.disconnect()]: all outgoing connections of [a] go. *)
Definition disconnect (a : Node) (e : Edges) : Edges :=
  fun x y => negb (node_eqb a x) && e x y.

(** The refs of the set-up effect that [AudioGraph] does not hold, the
    connections, and how often a media element source was created for each
    of the two audio elements. *)
Record Routing := {
  sourceNodeRef : bool;
  bgMusicSourceNodeRef : bool;
  destNodeRef : bool;
  edges : Edges;
  mainSourcesCreated : nat;
  bgSourcesCreated : nat
}.

(** The audio engine set-up effect.  [mainAudio] and [bgMusic] say whether
    the two audio elements are mounted, [createMain] and [createBg] whether
    [createMediaElementSource] succeeds for them (its failure is caught).
    A gain node comes out of [createGain] with value 1. *)
Definition audioSetupEffect (config : VideoConfig) (mainAudio bgMusic : bool)
  (createMain createBg : bool) (g : AudioGraph) (r : Routing)
  : AudioGraph * Routing :=
  let ctx := nullish (audioContextRef g) {| contextTime := 0 |} in
  let e := edges r in
  let e := match monitorGainNodeRef g with
           | Some _ => e
           | None => connect MonitorGain DeviceOut e
           end in
  let monitor := nullish (monitorGainNodeRef g) (plain_gain 0.95) in
  let mainGain :=
    nullish (mainAudioGainNodeRef g)
            (plain_gain (nullish (mainAudioVolume config) 1.0)) in
  (* main audio route *)
  let mainRoute := truthy_opt_str (audioUrl config) && mainAudio in
  let newMain := mainRoute && negb (sourceNodeRef r) && createMain in
  let source := sourceNodeRef r || newMain in
  let e := if mainRoute && source
           then connect MainGain CaptureDest
                  (connect MainGain MonitorGain
                     (connect MainSource MainGain
                        (disconnect MainGain (disconnect MainSource e))))
           else e in
  (* background music route *)
  let bgRoute := truthy_opt_str (bgMusicUrl config) && bgMusic in
  let newBg := bgRoute && negb (bgMusicSourceNodeRef r) && createBg in
  let bgSource := bgMusicSourceNodeRef r || newBg in
  let e := if bgRoute
           then match bgMusicMonitorGainNodeRef g with
                | Some _ => e
                | None => connect BgMonitorGain DeviceOut e
                end
           else e in
  let bgGain :=
    if bgRoute
    then Some (setValue (nullish (bgMusicGainNodeRef g) (plain_gain 1))
                        (bgMusicVolume config))
    else bgMusicGainNodeRef g in
  let bgMonitor :=
    if bgRoute
    then Some (setValue (nullish (bgMusicMonitorGainNodeRef g) (plain_gain 1))
                        (bgMusicVolume config))
    else bgMusicMonitorGainNodeRef g in
  let e := if bgRoute && bgSource
           then connect BgSource BgMonitorGain
                  (connect BgGain CaptureDest
                     (connect BgSource BgGain (disconnect BgSource e)))
           else e in
  ( {| audioContextRef := Some ctx;
       mainAudioGainNodeRef := Some mainGain;
       monitorGainNodeRef := Some monitor;
       bgMusicGainNodeRef := bgGain;
       bgMusicMonitorGainNodeRef := bgMonitor |},
    {| sourceNodeRef := source;
       bgMusicSourceNodeRef := bgSource;
       destNodeRef := true;
       edges := e;
       mainSourcesCreated :=
         (if newMain then S (mainSourcesCreated r) else mainSourcesCreated r);
       bgSourcesCreated :=
         (if newBg then S (bgSourcesCreated r) else bgSourcesCreated r) |} ).

(** The connections of the full graph: each source into its gain, the main
    gain into the monitor gain and the capture destination, the background
    gain into the capture destination, the background source into its own
    monitor gain, and the two monitor gains into the speakers. *)
Definition wired (a b : Node) : bool :=
  match a, b with
  | MainSource, MainGain
  | MainGain, MonitorGain | MainGain, CaptureDest
  | MonitorGain, DeviceOut
  | BgSource, BgGain | BgSource, BgMonitorGain
  | BgGain, CaptureDest
  | BgMonitorGain, DeviceOut => true
  | _, _ => false
  end.

(** What holds of the refs and connections between runs of the effect:
    only connections of the full graph exist, and a monitor gain that
    exists is connected to the speakers. *)
Definition graph_ok (g : AudioGraph) (r : Routing) : Prop :=
  (forall a b, edges r a b = true -> wired a b = true)
  /\ (monitorGainNodeRef g <> None -> edges r MonitorGain DeviceOut = true)
  /\ (bgMusicMonitorGainNodeRef g <> None ->
      edges r BgMonitorGain DeviceOut = true).

Definition all_nodes : list Node :=
  [MainSource; MainGain; MonitorGain; BgSource; BgGain; BgMonitorGain;
   CaptureDest; DeviceOut].

(** Nothing created, nothing connected. *)
Definition no_graph : AudioGraph :=
  {| audioContextRef := None; mainAudioGainNodeRef := None;
     monitorGainNodeRef := None; bgMusicGainNodeRef := None;
     bgMusicMonitorGainNodeRef := None |}.

Definition no_routing : Routing :=
  {| sourceNodeRef := false; bgMusicSourceNodeRef := false;
     destNodeRef := false; edges := fun _ _ => false;
     mainSourcesCreated := 0; bgSourcesCreated := 0 |}.

Definition both_tracks : VideoConfig :=
  {| aspectRatio := R16_9; script := str "Hello";
     fontFamily := str "Inter"; fontSize := 100; isBold := false;
     lineHeight := 1.5; scrollSpeed := 50; autoScrollSpeed := false;
     audioUrl := Some voice_url; bgMusicUrl := Some (str "blob:music");
     bgMusicVolume := 0.5; mainAudioVolume := None; muteOnExport := true;
     fps := 30; tickerText := []; tickerSpeed := 100;
     tickerFontSize := 40 |}.

(* ================================================================== *)
(** ** Vocabulary for blank lines *)

Definition no_segments (l : Line) : bool :=
  match segments l with [] => true | _ => false end.

Definition is_empty_string (s : jsstring) : bool := negb (truthy_str s).

(** The tokens of a hard line, measured under the text font. *)
Definition tokens (ctx : Context2D) (config : VideoConfig) (line : jsstring)
  : list Segment :=
  measure_parts (ctx (textFont config)) (split_ws line).

(* ================================================================== *)
(** * Properties *)

(** ** Numbers *)

Lemma gtb_true (a b : number) : gtb a b = true <-> b < a.
Proof.
  unfold gtb. rewrite negb_true_iff.
  split; intro H.
  - apply Qnot_le_lt. intro Hle. apply Qle_bool_iff in Hle. congruence.
  - destruct (Qle_bool a b) eqn:E; [|reflexivity].
    apply Qle_bool_iff in E. exfalso. exact (Qlt_not_le _ _ H E).
Qed.

Lemma gtb_false (a b : number) : gtb a b = false <-> a <= b.
Proof.
  unfold gtb. rewrite negb_false_iff. apply Qle_bool_iff.
Qed.

Lemma geb_true (a b : number) : geb a b = true <-> b <= a.
Proof. unfold geb. apply Qle_bool_iff. Qed.

Lemma truthy_num_true (x : number) : truthy_num x = true <-> ~ x == 0.
Proof.
  unfold truthy_num. rewrite negb_true_iff.
  split; intro H.
  - intro E. apply Qeq_bool_iff in E. congruence.
  - destruct (Qeq_bool x 0) eqn:E; [|reflexivity].
    apply Qeq_bool_iff in E. contradiction.
Qed.

Lemma truthy_num_false (x : number) : truthy_num x = false <-> x == 0.
Proof.
  unfold truthy_num. rewrite negb_false_iff. apply Qeq_bool_iff.
Qed.

Lemma or_num_nonzero (x d : number) : ~ d == 0 -> ~ or_num x d == 0.
Proof.
  intros Hd. unfold or_num.
  destruct (truthy_num x) eqn:E; [|exact Hd].
  now apply truthy_num_true.
Qed.

(** ** Rounding *)

Lemma rounds_within_nonneg (u : Q) (fl : Rounding) :
  rounds_within u fl -> 0 <= u.
Proof.
  intros H. specialize (H 1). pose proof (Qabs_nonneg (fl 1 - 1)) as P.
  change (Qabs 1) with 1 in H. lra.
Qed.

(** A rounded quotient times its divisor, rounded again, is the dividend
    up to two roundings. *)
Lemma rounded_quotient_product (u : Q) (fl : Rounding) (t s : Q) :
  rounds_within u fl ->
  ~ s == 0 ->
  Qabs (fl (fl (t / s) * s) - t) <= (2 * u + u * u) * Qabs t.
Proof.
  intros R Hs. pose proof (rounds_within_nonneg u fl R) as Hu.
  pose proof (R (t / s)) as R1. pose proof (R (fl (t / s) * s)) as R2.
  set (q := fl (t / s)) in *. set (p := fl (q * s)) in *.
  assert (Ets : Qabs (t / s) * Qabs s == Qabs t).
  { rewrite <- Qabs_Qmult. apply Qabs_wd. field. exact Hs. }
  assert (A : Qabs (q * s - t) <= u * Qabs t).
  { assert (E : q * s - t == (q - t / s) * s) by (field; exact Hs).
    rewrite E, Qabs_Qmult, <- Ets.
    pose proof (Qabs_nonneg s). nra. }
  assert (B : Qabs (q * s) <= Qabs t + u * Qabs t).
  { assert (E : q * s == t + (q * s - t)) by ring.
    rewrite E at 1. eapply Qle_trans; [apply Qabs_triangle|]. lra. }
  assert (C : Qabs (p - t) <= Qabs (p - q * s) + Qabs (q * s - t)).
  { assert (E : p - t == (p - q * s) + (q * s - t)) by ring.
    rewrite E at 1. apply Qabs_triangle. }
  pose proof (Qabs_nonneg t). nra.
Qed.

(** A rounded non-negative number is at least (1 - u) times the number. *)
Lemma rounded_lower (u : Q) (fl : Rounding) (x : Q) :
  rounds_within u fl -> 0 <= x -> (1 - u) * x <= fl x.
Proof.
  intros R Hx. pose proof (R x) as H. rewrite (Qabs_pos x Hx) in H.
  apply Qabs_Qle_condition in H. lra.
Qed.

Lemma round_even_err (y : Q) : Qabs (inject_Z (round_even y) - y) <= 1 # 2.
Proof.
  pose proof (Qfloor_le y) as Hlo. pose proof (Qlt_floor y) as Hhi.
  rewrite inject_Z_plus in Hhi. change (inject_Z 1) with 1 in Hhi.
  apply Qabs_Qle_condition. unfold round_even.
  destruct (Qcompare_spec (y - inject_Z (Qfloor y)) (1 # 2)) as [E|E|E].
  - destruct (Z.even (Qfloor y));
      [|rewrite inject_Z_plus; change (inject_Z 1) with 1]; split; lra.
  - split; lra.
  - rewrite inject_Z_plus. change (inject_Z 1) with 1. split; lra.
Qed.

Lemma two_pow_pos (e : Z) : 0 < 2 ^ e.
Proof. apply Qpower_0_lt. reflexivity. Qed.

(** The difference of the binary logarithms of numerator and denominator
    brackets a positive rational from below. *)
Lemma log2_bracket (a : Q) :
  0 < a ->
  2 ^ 52 * 2 ^ (Z.log2 (Qnum a) - Z.log2 (Zpos (Qden a)) - 53) < a.
Proof.
  intros Ha. destruct a as [n d]. cbn [Qnum Qden].
  assert (Hn : (0 < n)%Z).
  { unfold Qlt in Ha. cbn in Ha. lia. }
  destruct (Z.log2_spec n Hn) as [Hn1 _].
  destruct (Z.log2_spec (Zpos d) (Pos2Z.is_pos d)) as [_ Hd2].
  pose proof (Z.log2_nonneg n) as Ln. pose proof (Z.log2_nonneg (Zpos d)) as Ld.
  set (ln := Z.log2 n) in *. set (ld := Z.log2 (Zpos d)) in *.
  assert (E : 2 ^ 52 * 2 ^ (ln - ld - 53) == 2 ^ ln / 2 ^ (ld + 1)).
  { replace (ln - ld - 53)%Z with (ln - (ld + 1) - 52)%Z by lia.
    rewrite !Qpower_minus by discriminate. field.
    apply Qpower_not_0; discriminate. }
  rewrite E.
  assert (Q1 : 2 ^ ln <= inject_Z n).
  { rewrite <- (Zpower_Qpower 2 ln Ln). rewrite <- Zle_Qle. exact Hn1. }
  assert (Q2 : inject_Z (Zpos d) < 2 ^ (ld + 1)).
  { rewrite <- (Zpower_Qpower 2 (ld + 1)) by lia. rewrite <- Zlt_Qlt.
    replace (ld + 1)%Z with (Z.succ ld) by lia. exact Hd2. }
  assert (Q3 : n # d == inject_Z n / inject_Z (Zpos d)).
  { rewrite Qmake_Qdiv. reflexivity. }
  rewrite Q3.
  pose proof (two_pow_pos ln). pose proof (two_pow_pos (ld + 1)).
  assert (Dpos : 0 < inject_Z (Zpos d)) by reflexivity.
  apply Qlt_shift_div_l; [exact Dpos|].
  assert (R : inject_Z (Zpos d) / 2 ^ (ld + 1) < 1).
  { apply Qlt_shift_div_r; [assumption|]. lra. }
  assert (X : 2 ^ ln / 2 ^ (ld + 1) * inject_Z (Zpos d)
              == 2 ^ ln * (inject_Z (Zpos d) / 2 ^ (ld + 1))) by (field; lra).
  rewrite X. nra.
Qed.

Lemma binade_lower (a : Q) : 0 < a -> 2 ^ 52 * 2 ^ binade a <= a.
Proof.
  intros Ha. unfold binade.
  set (e0 := (Z.log2 (Qnum a) - Z.log2 (Zpos (Qden a)) - 53)%Z).
  pose proof (log2_bracket a Ha) as B. fold e0 in B.
  pose proof (two_pow_pos e0) as P.
  destruct (Qle_bool (2 ^ 53) (a / 2 ^ e0)) eqn:E.
  - apply Qle_bool_iff in E.
    apply (Qmult_le_compat_r _ _ (2 ^ e0)) in E; [|lra].
    assert (X : a / 2 ^ e0 * 2 ^ e0 == a) by (field; lra).
    rewrite X in E. rewrite Qpower_plus by discriminate.
    change (2 ^ 1) with 2. change (2 ^ 53) with (2 ^ 52 * 2) in E. lra.
  - lra.
Qed.

(** The relative error of [binary64] is at most 2^-53. *)
Lemma binary64_rounds : rounds_within (1 # 2 ^ 53) binary64.
Proof.
  intros x. unfold binary64.
  destruct (Qeq_bool x 0) eqn:Z.
  - apply Qeq_bool_iff in Z. rewrite Z. cbn. discriminate.
  - apply Qeq_bool_neq in Z.
    assert (Ha : 0 < Qabs x).
    { pose proof (Qabs_nonneg x) as N.
      destruct (Qle_lt_or_eq _ _ N) as [L|L]; [exact L|].
      exfalso. apply Z.
      pose proof (Qle_Qabs x) as P1. pose proof (Qle_Qabs (- x)) as P2.
      rewrite Qabs_opp in P2. lra. }
    pose proof (binade_lower _ Ha) as B.
    set (ulp := 2 ^ binade (Qabs x)) in *.
    assert (U : 0 < ulp) by apply two_pow_pos.
    pose proof (round_even_err (Qabs x / ulp)) as R.
    set (m := inject_Z (round_even (Qabs x / ulp))) in *.
    apply Qabs_Qle_condition in R.
    assert (Y : Qabs x / ulp * ulp == Qabs x) by (field; lra).
    assert (M : - ((1 # 2) * ulp) <= m * ulp - Qabs x
                /\ m * ulp - Qabs x <= (1 # 2) * ulp) by (split; nra).
    change (2 ^ 52) with 4503599627370496 in B.
    change (1 # 2 ^ 53) with (1 # 9007199254740992).
    destruct (Qle_bool 0 x) eqn:S.
    + apply Qle_bool_iff in S. rewrite (Qabs_pos x S) in *.
      apply Qabs_Qle_condition. split; lra.
    + assert (S' : x < 0).
      { apply Qnot_le_lt. intros L. apply Qle_bool_iff in L. congruence. }
      rewrite (Qabs_neg x) in * by lra.
      apply Qabs_Qle_condition. split; lra.
Qed.

(** With the identity for [fl] the rounded computation is the exact one. *)
Lemma rounded_exact (ctx : option Context2D) (config : VideoConfig)
  (D : number) :
  Rounded.maxDuration (fun x => x) ctx config D = maxDuration ctx config D
  /\ Rounded.effectiveScrollSpeed (fun x => x) ctx config D
     = effectiveScrollSpeed ctx config D
  /\ Rounded.totalDistance (fun x => x) ctx config = totalDistance ctx config.
Proof. repeat split. Qed.

(** ** Scenarios of the specification, evaluated on the model *)

Example scenario_two_lines :
  List.length (lines (Some monospace) hello_world) = 2%nat
  /\ CANVAS_WIDTH hello_world == 1920
  /\ CANVAS_HEIGHT hello_world == 1080
  /\ maxDuration (Some monospace) hello_world 0
     == (2 * (fontSize hello_world * lineHeight hello_world) + 1080) / 50.
Proof. vm_compute. repeat split; reflexivity. Qed.

(** ** Duration and speed *)

(** C2: with a primary audio URL set and a positive audio duration [D],
    [maxDuration] is [D], whatever the scroll speed and the auto-speed flag
    of the configuration. *)
Theorem maxDuration_with_audio (ctx : option Context2D) (config : VideoConfig)
  (D : number) :
  truthy_opt_str (audioUrl config) = true ->
  0 < D ->
  maxDuration ctx config D = D.
Proof.
  intros Hurl HD. unfold maxDuration.
  rewrite Hurl. apply gtb_true in HD. rewrite HD. reflexivity.
Qed.

Lemma maxDuration_with_audio_witness :
  maxDuration (Some monospace)
    (with_speed 7 true (with_audio (Some voice_url) hello_world)) 10 = 10.
Proof.
  apply maxDuration_with_audio.
  - reflexivity.
  - reflexivity.
Defined.

Lemma maxDuration_without_audio (ctx : option Context2D)
  (config : VideoConfig) (D : number) :
  truthy_opt_str (audioUrl config) && gtb D 0 = false ->
  maxDuration ctx config D = visualDuration ctx config D.
Proof. intros H. unfold maxDuration. rewrite H. reflexivity. Qed.

(** C5, as stated, fails: with an explicit speed of 0 and no audio the
    duration is computed with the divisor 50, so duration times speed is 0
    while the distance to scroll is 1380. *)
Lemma zero_speed_counterexample :
  let config := with_speed 0 false hello_world in
  let ctx := Some monospace in
  truthy_opt_str (audioUrl config) && gtb 0 0 = false
  /\ maxDuration ctx config 0 * effectiveScrollSpeed ctx config 0 == 0
  /\ totalTextHeight ctx config + CANVAS_HEIGHT config == 1380
  /\ ~ maxDuration ctx config 0 * effectiveScrollSpeed ctx config 0
       == totalTextHeight ctx config + CANVAS_HEIGHT config.
Proof.
  vm_compute. repeat split; try reflexivity.
  intro H. discriminate H.
Qed.

(** C5, amended: without a loaded primary audio track and with a non-zero
    effective scroll speed, [maxDuration] times the effective speed equals
    the text height plus the viewport height within rounding tolerance:
    when every operation is rounded with a relative error of at most [u],
    the computed product differs from the computed distance by at most
    [2u + u^2] times the distance. *)
Theorem duration_times_speed (u : number) (fl : Rounding)
  (ctx : option Context2D) (config : VideoConfig) (D : number) :
  rounds_within u fl ->
  truthy_opt_str (audioUrl config) && gtb D 0 = false ->
  ~ Rounded.effectiveScrollSpeed fl ctx config D == 0 ->
  Qabs (fl (Rounded.maxDuration fl ctx config D
            * Rounded.effectiveScrollSpeed fl ctx config D)
        - Rounded.totalDistance fl ctx config)
  <= (2 * u + u * u) * Qabs (Rounded.totalDistance fl ctx config).
Proof.
  intros R Hno Hnz. unfold Rounded.maxDuration. rewrite Hno.
  unfold Rounded.visualDuration, or_num.
  apply truthy_num_true in Hnz as Ht. rewrite Ht.
  apply rounded_quotient_product; assumption.
Qed.

(** In binary64 at speed 21 the product is not the distance 1380, and is
    within the tolerance. *)
Lemma duration_times_speed_witness :
  let config := with_speed 21 false hello_world in
  let ctx := Some monospace in
  let product :=
    binary64 (Rounded.maxDuration binary64 ctx config 0
              * Rounded.effectiveScrollSpeed binary64 ctx config 0) in
  Rounded.totalDistance binary64 ctx config == 1380
  /\ ~ product == 1380
  /\ Qabs (product - Rounded.totalDistance binary64 ctx config)
     <= (2 * (1 # 2 ^ 53) + (1 # 2 ^ 53) * (1 # 2 ^ 53))
        * Qabs (Rounded.totalDistance binary64 ctx config).
Proof.
  cbv zeta. split; [|split].
  - vm_compute. reflexivity.
  - vm_compute. discriminate.
  - apply (duration_times_speed (1 # 2 ^ 53) binary64 (Some monospace)
             (with_speed 21 false hello_world) 0 binary64_rounds).
    + reflexivity.
    + vm_compute. discriminate.
Defined.

(** C6: with auto-speed enabled and a positive audio duration the effective
    scroll speed is the larger of (text height + viewport height) / duration
    and 10, hence at least 10; in every other case it is the configured
    speed. *)
Theorem effectiveScrollSpeed_spec (ctx : option Context2D)
  (config : VideoConfig) (D : number) :
  (autoScrollSpeed config = true -> 0 < D ->
     effectiveScrollSpeed ctx config D
     = Qmax ((totalTextHeight ctx config + CANVAS_HEIGHT config) / D) 10
     /\ 10 <= effectiveScrollSpeed ctx config D)
  /\ (~ (autoScrollSpeed config = true /\ 0 < D) ->
     effectiveScrollSpeed ctx config D = scrollSpeed config).
Proof.
  unfold effectiveScrollSpeed, calculatedAutoSpeed, totalDistance.
  split.
  - intros Ha HD. rewrite Ha. apply gtb_true in HD. rewrite HD. cbn [andb].
    split; [reflexivity|]. apply Q.le_max_r.
  - intros Hn. destruct (autoScrollSpeed config); [|reflexivity].
    destruct (gtb D 0) eqn:E; [|reflexivity].
    apply gtb_true in E. exfalso. apply Hn. split; [reflexivity|exact E].
Qed.

Lemma effectiveScrollSpeed_spec_witness :
  let config := with_speed 50 true hello_world in
  (effectiveScrollSpeed (Some monospace) config 1000 == 10
   /\ 10 <= effectiveScrollSpeed (Some monospace) config 1000)
  /\ effectiveScrollSpeed (Some monospace) config 10 == 138
  /\ effectiveScrollSpeed (Some monospace) config 0 = 50
  /\ effectiveScrollSpeed (Some monospace) hello_world 10 = 50.
Proof.
  cbv zeta.
  destruct (effectiveScrollSpeed_spec (Some monospace)
              (with_speed 50 true hello_world) 1000) as [A _].
  destruct (effectiveScrollSpeed_spec (Some monospace)
              (with_speed 50 true hello_world) 10) as [B _].
  destruct (effectiveScrollSpeed_spec (Some monospace)
              (with_speed 50 true hello_world) 0) as [_ C].
  destruct (effectiveScrollSpeed_spec (Some monospace) hello_world 10)
    as [_ E].
  specialize (A eq_refl eq_refl). specialize (B eq_refl eq_refl).
  split; [split|split; [|split]].
  - rewrite (proj1 A). reflexivity.
  - exact (proj2 A).
  - rewrite (proj1 B). reflexivity.
  - apply C. intros [_ H]. discriminate H.
  - apply E. intros [H _]. discriminate H.
Defined.

(** C10: the divisor of the visual duration is never 0, for any
    configuration and any audio duration; when the effective scroll speed is
    0 it is the fallback 50, and then, without a usable audio duration,
    [maxDuration] is (text height + viewport height) / 50. *)
Theorem visualDuration_divisor (ctx : option Context2D)
  (config : VideoConfig) (D : number) :
  ~ visualDivisor ctx config D == 0
  /\ (effectiveScrollSpeed ctx config D == 0 ->
      visualDivisor ctx config D = 50
      /\ (truthy_opt_str (audioUrl config) && gtb D 0 = false ->
          maxDuration ctx config D
          = (totalTextHeight ctx config + CANVAS_HEIGHT config) / 50)).
Proof.
  split.
  - unfold visualDivisor. apply or_num_nonzero. discriminate.
  - intros Hz. apply truthy_num_false in Hz.
    assert (Hd : visualDivisor ctx config D = 50).
    { unfold visualDivisor, or_num. rewrite Hz. reflexivity. }
    split; [exact Hd|].
    intros Hno. rewrite (maxDuration_without_audio _ _ _ Hno).
    unfold visualDuration. rewrite Hd. reflexivity.
Qed.

Lemma visualDuration_divisor_witness :
  let config := with_speed 0 false hello_world in
  visualDivisor (Some monospace) config 0 = 50
  /\ maxDuration (Some monospace) config 0 == 1380 / 50.
Proof.
  cbv zeta.
  destruct (visualDuration_divisor (Some monospace)
              (with_speed 0 false hello_world) 0) as [_ H].
  destruct (H ltac:(reflexivity)) as [H1 H2].
  split; [exact H1|]. rewrite (H2 eq_refl). reflexivity.
Defined.

(** ** Monitor mute during export *)

(** C7: when the effect runs with [isExporting] and [muteOnExport] both set,
    each of the two monitor gain nodes gets one more automation event, a
    [setTargetAtTime] towards 0 starting at the context's current time with
    time constant 0.1, and nothing else about it changes; the two capture
    path gain nodes (main gain and background-music gain) are the same
    nodes as before. *)
Theorem mute_monitor_on_export (config : VideoConfig) (g : AudioGraph)
  (ctx : AudioContext) :
  audioContextRef g = Some ctx ->
  muteOnExport config = true ->
  let g' := muteMonitorEffect true config g in
  (forall m, monitorGainNodeRef g = Some m ->
     exists m', monitorGainNodeRef g' = Some m'
       /\ value (gain m') = value (gain m)
       /\ automation (gain m')
          = automation (gain m) ++ [SetTargetAtTime 0 (contextTime ctx) 0.1])
  /\ (forall b, bgMusicMonitorGainNodeRef g = Some b ->
     exists b', bgMusicMonitorGainNodeRef g' = Some b'
       /\ value (gain b') = value (gain b)
       /\ automation (gain b')
          = automation (gain b) ++ [SetTargetAtTime 0 (contextTime ctx) 0.1])
  /\ mainAudioGainNodeRef g' = mainAudioGainNodeRef g
  /\ bgMusicGainNodeRef g' = bgMusicGainNodeRef g.
Proof.
  intros Hctx Hmute g'. subst g'. unfold muteMonitorEffect.
  rewrite Hctx, Hmute. cbn [andb audioContextRef mainAudioGainNodeRef
    monitorGainNodeRef bgMusicGainNodeRef bgMusicMonitorGainNodeRef].
  repeat split.
  - intros m Hm. rewrite Hm. cbn [option_map].
    eexists; split; [reflexivity|]. split; reflexivity.
  - intros b Hb. rewrite Hb. cbn [option_map].
    eexists; split; [reflexivity|]. split; reflexivity.
Qed.

Lemma mute_monitor_on_export_witness :
  let g' := muteMonitorEffect true hello_world full_graph in
  option_map (fun n => automation (gain n)) (monitorGainNodeRef g')
    = Some [SetTargetAtTime 0 12 0.1]
  /\ option_map (fun n => automation (gain n)) (bgMusicMonitorGainNodeRef g')
    = Some [SetTargetAtTime 0 12 0.1]
  /\ mainAudioGainNodeRef g' = Some (plain_gain 1)
  /\ bgMusicGainNodeRef g' = Some (plain_gain 0.5).
Proof.
  cbv zeta.
  destruct (mute_monitor_on_export hello_world full_graph
              {| contextTime := 12 |} eq_refl eq_refl)
    as (Hm & Hb & Hmain & Hbg).
  destruct (Hm _ eq_refl) as (m' & Em & _ & Am).
  destruct (Hb _ eq_refl) as (b' & Eb & _ & Ab).
  rewrite Em, Eb, Hmain, Hbg. cbn [option_map]. rewrite Am, Ab.
  repeat split; reflexivity.
Defined.

(** ** Rejected playback start *)

(** C8, amended: in the start/stop audio effect, that is outside an
    export, when the primary audio is started (not exporting, playing, URL
    set, element present, ready, no error) and its [play()] promise is
    rejected with [e], the effect still completes normally: the rejection
    is handled, the playing flag ends up false and the failure is logged on
    the console; the exporting flag, the time and the audio element are as
    they were. *)
Theorem playback_rejection_is_caught (config : VideoConfig) (now : number)
  (e : jsstring) (playBg : PlayResult) (st : PlayerState) (a : Audio.Element) :
  isExporting st = false ->
  isPlaying st = true ->
  truthy_opt_str (audioUrl config) = true ->
  audioRef st = Some a ->
  isAudioReady st = true ->
  audioError st = false ->
  exists st',
    startStopAudioEffect config now (Rejected e) playBg st = Normal st'
    /\ isPlaying st' = false
    /\ In (str "Playback failed:", e) (console st')
    /\ isExporting st' = false
    /\ currentTime st' = currentTime st
    /\ audioRef st' = Some a.
Proof.
  intros Hexp Hplay Hurl Ha Hready Herr.
  unfold startStopAudioEffect. rewrite Hexp, Hplay.
  cbn [audioRef setLastTimeRef isAudioReady audioError].
  rewrite Ha, Hurl, Hready, Herr.
  cbn [andb negb play_catch bind fst snd].
  set (st1 := setAudio _ _).
  assert (H1 : isPlaying st1 = false /\ isExporting st1 = false
               /\ currentTime st1 = currentTime st /\ audioRef st1 = Some a
               /\ In (str "Playback failed:", e) (console st1)).
  { subst st1. cbn. rewrite Hexp. repeat split; try reflexivity.
    apply in_or_app. right. left. reflexivity. }
  destruct H1 as (P & X & T & A & C).
  destruct (bgMusicRef st1) as [b|] eqn:Eb.
  - destruct (truthy_opt_str (bgMusicUrl config)).
    + destruct playBg as [|e']; cbn [play_catch bind fst snd];
        eexists; (split; [reflexivity|]); cbn; repeat split; assumption.
    + eexists; split; [reflexivity|]. repeat split; assumption.
  - eexists; split; [reflexivity|]. repeat split; assumption.
Qed.

Lemma playback_rejection_is_caught_witness :
  exists st',
    startStopAudioEffect (with_audio (Some voice_url) hello_world) 5
      (Rejected (str "NotAllowedError")) Fulfilled playing_state = Normal st'
    /\ isPlaying st' = false
    /\ In (str "Playback failed:", str "NotAllowedError") (console st')
    /\ isExporting st' = false
    /\ currentTime st' = currentTime playing_state
    /\ audioRef st' = Some fresh_audio.
Proof.
  apply playback_rejection_is_caught; reflexivity.
Defined.

(** C8, as stated, fails: the primary audio is also started by
    [startRecording], when an export begins.  There a rejected [play()] is
    caught by an empty handler: the function goes on, sets the playing flag
    to true and starts the recorder, nothing is logged or alerted, and the
    audio element stays paused. *)
Lemma export_play_rejection_counterexample :
  let config := with_audio (Some voice_url) hello_world in
  let st := handleExport playing_state in
  exists st',
    startRecordingWith config (audioError playing_state) 600
      (Rejected (str "NotAllowedError")) Fulfilled true true st
    = Normal (st', [])
    /\ audioRef st = Some (rewind fresh_audio)
    /\ isPlaying st' = true
    /\ isExporting st' = true
    /\ console st' = []
    /\ audioRef st' = Some (rewind fresh_audio)
    /\ Audio.paused (rewind fresh_audio) = true.
Proof.
  cbv zeta. eexists. split; [reflexivity|]. repeat split; reflexivity.
Qed.

(** ** Ticker *)

(** For a non-negative dividend and a positive divisor the remainder lies
    in [[0, b)]. *)
Lemma rem_bounds (a b : number) :
  0 <= a -> 0 < b -> 0 <= rem a b /\ rem a b < b.
Proof.
  intros Ha Hb. unfold rem, trunc.
  assert (Hq : 0 <= a / b).
  { apply Qle_shift_div_l; [exact Hb|]. lra. }
  assert (Hf : Z.quot (Qnum (a / b)) (Zpos (Qden (a / b))) = Qfloor (a / b)).
  { unfold Qfloor. destruct (a / b) as [n d] eqn:E. cbn [Qnum Qden].
    apply Z.quot_div_nonneg; [|reflexivity].
    unfold Qle in Hq. cbn in Hq. lia. }
  rewrite Hf.
  pose proof (Qfloor_le (a / b)) as Hlo.
  pose proof (Qlt_floor (a / b)) as Hhi.
  rewrite inject_Z_plus in Hhi.
  assert (Hab : b * (a / b) == a) by (field; lra).
  set (f := inject_Z (Qfloor (a / b))) in *.
  assert (H1 : b * f <= b * (a / b)).
  { apply Qmult_le_l; assumption. }
  assert (H2 : b * (a / b) < b * (f + inject_Z 1)).
  { apply Qmult_lt_l; assumption. }
  rewrite Hab in H1, H2.
  assert (H3 : b * (f + inject_Z 1) == b * f + b) by (unfold inject_Z; ring).
  rewrite H3 in H2.
  split; lra.
Qed.

Lemma renderTicker_copies (ctx : Context2D) (config : VideoConfig)
  (time : number) :
  truthy_str (tickerText config) = true ->
  textCopies (renderTicker ctx config time)
  = [ tickerStartX ctx config time;
      tickerStartX ctx config time + tickerLoopWidth ctx config;
      tickerStartX ctx config time - tickerLoopWidth ctx config ].
Proof.
  intros Ht. unfold renderTicker. rewrite Ht. reflexivity.
Qed.

(** C3: the ticker block sets up a loop of three copies, one loop width
    apart, and misses the seamless coverage it is after when the loop is
    shorter than the canvas.  With a ticker text of two characters at 40px
    (a loop of 380px) on the 1920px wide canvas, at time 0 the three
    copies start at 1920, 2300 and 1540, and the left edge of the visible
    band lies in none of them. *)
Lemma ticker_gap_counterexample :
  let config := with_ticker (str "Hi") hello_world in
  truthy_str (tickerText config) = true
  /\ tickerLoopWidth monospace config == 380
  /\ Forall2 Qeq (textCopies (renderTicker monospace config 0))
             [1920; 2300; 1540]
  /\ ticker_covers monospace config 0 0 = false
  /\ ~ (forall x, 0 <= x <= CANVAS_WIDTH config ->
          ticker_covers monospace config 0 x = true).
Proof.
  cbv zeta. repeat split.
  - vm_compute. repeat constructor.
  - intros H. specialize (H 0).
    assert (Hc : ticker_covers monospace
                   (with_ticker (str "Hi") hello_world) 0 0 = false)
      by (vm_compute; reflexivity).
    rewrite H in Hc; [discriminate Hc|].
    split; vm_compute; discriminate.
Qed.

(** ** Export loop *)

Lemma finishExport_stops (st : PlayerState) :
  is_recording (finishExport st) = false.
Proof.
  unfold finishExport, is_recording.
  destruct (mediaRecorderRef st) as [[| |]|] eqn:E; cbn; rewrite ?E;
    reflexivity.
Qed.

Lemma finishExport_clock (st : PlayerState) :
  currentTimeRef (finishExport st) = currentTimeRef st
  /\ lastTimeRef (finishExport st) = lastTimeRef st.
Proof.
  unfold finishExport.
  destruct (mediaRecorderRef st) as [[| |]|]; split; reflexivity.
Qed.

(** The clock after a tick, whether or not the tick ends the export. *)
Lemma workerTick_clock (ctx : option Context2D) (config : VideoConfig)
  (now : number) (st : PlayerState) :
  currentTimeRef (workerTick ctx config now st)
  = currentTimeRef st + (now - lastTimeRef st) / 1000
  /\ lastTimeRef (workerTick ctx config now st) = now.
Proof.
  unfold workerTick.
  match goal with |- context [if ?b then _ else _] => destruct b end.
  - destruct (finishExport_clock
      (setCurrentTime
         (currentTimeRef
            (setCurrentTimeRef
               (currentTimeRef (setLastTimeRef now st)
                + (now - lastTimeRef st) / 1000) (setLastTimeRef now st)))
         (setCurrentTimeRef
            (currentTimeRef (setLastTimeRef now st)
             + (now - lastTimeRef st) / 1000) (setLastTimeRef now st))))
      as [H1 H2].
    rewrite H1, H2. split; reflexivity.
  - split; reflexivity.
Qed.

(** The end test of a tick, in terms of the state before the tick. *)
Lemma workerTick_isEnded (ctx : option Context2D) (config : VideoConfig)
  (now : number) (st : PlayerState) :
  workerTick ctx config now st
  = let st1 := setCurrentTime (currentTimeRef st + (now - lastTimeRef st) / 1000)
                 (setCurrentTimeRef
                    (currentTimeRef st + (now - lastTimeRef st) / 1000)
                    (setLastTimeRef now st)) in
    if (truthy_opt_str (audioUrl config)
        && match audioRef st with Some a => Audio.ended a | None => false end)
       || geb (currentTimeRef st + (now - lastTimeRef st) / 1000)
              (maxDuration ctx config (audioDuration st) + 0.5)
    then finishExport st1 else st1.
Proof. reflexivity. Qed.





(** ** Text layout: widths of the wrapped lines *)

(** C1, as stated, fails: whitespace never forces a break.  At 100px per
    character on the 1920px canvas ([maxWidth] 1728), seventeen letters, a
    space and a second word give a first line of two tokens, the letters
    and the space, 1800 wide. *)
Lemma wrapped_line_counterexample :
  let config := with_script (str "aaaaaaaaaaaaaaaaa bbb") hello_world in
  maxWidth config == 1728
  /\ lines (Some monospace) config
     = [ {| segments := [ {| text := str "aaaaaaaaaaaaaaaaa"; width := 1700 |};
                          {| text := str " "; width := 100 |} ];
            line_width := 1800 |};
         {| segments := [ {| text := str "bbb"; width := 300 |} ];
            line_width := 300 |} ]
  /\ ~ Forall (line_fits (maxWidth config)) (lines (Some monospace) config).
Proof.
  cbv zeta. split; [reflexivity|]. split; [vm_compute; reflexivity|].
  intros H. apply Forall_inv in H. destruct H as [H|(s & H & _)].
  - revert H. vm_compute. intro H. apply H. reflexivity.
  - revert H. vm_compute. discriminate.
Qed.

(** On that first line the letters alone count: 1700, within 1728. *)
Example content_of_first_line :
  let config := with_script (str "aaaaaaaaaaaaaaaaa bbb") hello_world in
  map (fun l => map text (content (segments l))) (lines (Some monospace) config)
    = [[str "aaaaaaaaaaaaaaaaa"]; [str "bbb"]]
  /\ map (fun l => sum_width (content (segments l)))
         (lines (Some monospace) config) = [1700; 300].
Proof. vm_compute. split; reflexivity. Qed.

Lemma sum_width_snoc (segs : list Segment) (s : Segment) :
  sum_width (segs ++ [s]) = sum_width segs + width s.
Proof. unfold sum_width. rewrite fold_left_app. reflexivity. Qed.

Lemma content_snoc (segs : list Segment) (s : Segment) :
  content (segs ++ [s]) = if is_blank s then content segs else segs ++ [s].
Proof.
  unfold content. rewrite rev_app_distr. cbn [rev app drop_blank].
  destruct (is_blank s); [reflexivity|].
  cbn [rev]. rewrite rev_involutive. reflexivity.
Qed.

Section Wrapping.

Variable mw : number.
Hypothesis mw_nonneg : 0 <= mw.

(** What the wrapping loop maintains: the lines pushed so far are fine, the
    running width is the sum of the running line, and the running line is
    fine as well. *)
Definition wrap_ok (w : Wrap) : Prop :=
  Forall (line_content_fits mw) (finalLines w)
  /\ line_content_fits mw
       {| segments := currentLine w; line_width := currentWidth w |}.

Lemma wrap_ok_start (acc : list Line) :
  Forall (line_content_fits mw) acc ->
  wrap_ok {| finalLines := acc; currentLine := []; currentWidth := 0 |}.
Proof.
  intros H. split; [exact H|]. split; [reflexivity|].
  left. exact mw_nonneg.
Qed.

Lemma wrap_segment_ok (w : Wrap) (seg : Segment) :
  wrap_ok w -> wrap_ok (wrap_segment mw w seg).
Proof.
  intros [Hfin [Hw Hc]]. cbn [segments line_width] in Hw, Hc.
  unfold wrap_segment.
  destruct (eqb (text seg) [10%N]); [split; [exact Hfin|split; assumption]|].
  destruct (gtb (currentWidth w + width seg) mw) eqn:Eg;
    destruct (Nat.ltb 0 (List.length (trim (text seg)))) eqn:Eb;
    cbn [andb finalLines currentLine currentWidth].
  - (* break before a non-whitespace token *)
    split.
    + apply Forall_app. split; [exact Hfin|].
      constructor; [|constructor]. split; assumption.
    + split; [reflexivity|]. cbn [segments app currentLine].
      assert (E : content [seg] = [seg]).
      { unfold content. cbn [rev app drop_blank]. unfold is_blank.
        rewrite Eb. reflexivity. }
      rewrite E.
      destruct (Qlt_le_dec mw (width seg)) as [Hwide|Hfit].
      * right. exists seg. split; [reflexivity|exact Hwide].
      * left. unfold sum_width. cbn [fold_left]. lra.
  - (* whitespace is appended whatever the width *)
    split; [exact Hfin|]. split.
    + cbn [segments line_width currentLine currentWidth].
      rewrite sum_width_snoc, Hw. reflexivity.
    + cbn [segments currentLine]. rewrite content_snoc.
      unfold is_blank. rewrite Eb.
      exact Hc.
  - (* a non-whitespace token that fits *)
    split; [exact Hfin|]. split.
    + cbn [segments line_width currentLine currentWidth].
      rewrite sum_width_snoc, Hw. reflexivity.
    + cbn [segments currentLine]. rewrite content_snoc.
      unfold is_blank. rewrite Eb.
      cbn [negb]. left. rewrite sum_width_snoc, <- Hw.
      apply gtb_false. exact Eg.
  - split; [exact Hfin|]. split.
    + cbn [segments line_width currentLine currentWidth].
      rewrite sum_width_snoc, Hw. reflexivity.
    + cbn [segments currentLine]. rewrite content_snoc.
      unfold is_blank. rewrite Eb.
      exact Hc.
Qed.

Lemma wrap_fold_ok (segs : list Segment) (w : Wrap) :
  wrap_ok w -> wrap_ok (fold_left (wrap_segment mw) segs w).
Proof.
  revert w. induction segs as [|s segs IH]; intros w H; [exact H|].
  cbn [fold_left]. apply IH. apply wrap_segment_ok. exact H.
Qed.

Lemma wrap_flush_ok (w : Wrap) :
  wrap_ok w ->
  Forall (line_content_fits mw)
    match currentLine w with
    | [] => finalLines w
    | _ => finalLines w ++
             [{| segments := currentLine w; line_width := currentWidth w |}]
    end.
Proof.
  destruct w as [fl cl cw]. intros [Hfin Hcur].
  cbn [finalLines currentLine currentWidth] in *.
  destruct cl as [|s cl]; [exact Hfin|].
  apply Forall_app. split; [exact Hfin|]. constructor; [exact Hcur|constructor].
Qed.

Lemma layout_line_ok (measure : jsstring -> number) (acc : list Line)
  (line : jsstring) :
  Forall (line_content_fits mw) acc ->
  Forall (line_content_fits mw) (layout_line measure mw acc line).
Proof.
  intros Hacc. unfold layout_line. destruct line as [|c line].
  - apply Forall_app. split; [exact Hacc|].
    constructor; [|constructor]. split; [reflexivity|].
    left. exact mw_nonneg.
  - apply wrap_flush_ok. apply wrap_fold_ok. apply wrap_ok_start. exact Hacc.
Qed.

Lemma layout_fold_ok (measure : jsstring -> number) (rawLines : list jsstring)
  (acc : list Line) :
  Forall (line_content_fits mw) acc ->
  Forall (line_content_fits mw)
         (fold_left (layout_line measure mw) rawLines acc).
Proof.
  revert acc. induction rawLines as [|l rawLines IH]; intros acc H; [exact H|].
  cbn [fold_left]. apply IH. apply layout_line_ok. exact H.
Qed.

End Wrapping.

Lemma maxWidth_pos (config : VideoConfig) : 0 < maxWidth config.
Proof.
  unfold maxWidth, PADDING_X, CANVAS_WIDTH, getCanvasDimensions.
  destruct (aspectRatio config); reflexivity.
Qed.

(** C1, amended: in every wrapped line the recorded width is the sum of the
    widths of its segments, and the part of the line up to its last
    non-whitespace token (the line without trailing whitespace tokens) is at
    most [maxWidth] wide, unless that part is a single token wider than
    [maxWidth] on its own. *)
Theorem wrapped_lines_fit (ctx : option Context2D) (config : VideoConfig) :
  Forall (line_content_fits (maxWidth config)) (lines ctx config).
Proof.
  unfold lines. destruct ctx as [ctx|]; [|constructor].
  apply layout_fold_ok; [|constructor].
  apply Qlt_le_weak. apply maxWidth_pos.
Qed.

(** ** Text layout: number of lines *)

(** C9, as stated, fails in two ways.  Without a 2D context the layout
    returns no line at all, for the empty script as for any other, and the
    text height is 0; and with a context, a font size of 0 makes the text
    height 0 although there is a line. *)
Lemma line_count_counterexample :
  let empty := with_script [] hello_world in
  let zero_font :=
    {| aspectRatio := R16_9; script := str "Hello";
       fontFamily := str "Inter"; fontSize := 0; isBold := false;
       lineHeight := 1.5; scrollSpeed := 50; autoScrollSpeed := false;
       audioUrl := None; bgMusicUrl := None; bgMusicVolume := 0.5;
       mainAudioVolume := None; muteOnExport := true; fps := 30;
       tickerText := []; tickerSpeed := 100; tickerFontSize := 40 |} in
  (lines None empty = []
   /\ lines None hello_world = []
   /\ totalTextHeight None hello_world == 0
   /\ fontSize hello_world * lineHeight hello_world == 150
   /\ ~ fontSize hello_world * lineHeight hello_world
        <= totalTextHeight None hello_world)
  /\ (List.length (lines (Some monospace) zero_font) = 1%nat
      /\ totalTextHeight (Some monospace) zero_font == 0).
Proof.
  cbv zeta. repeat split. vm_compute. intro H. apply H. reflexivity.
Qed.

Lemma eqb_eq (a b : jsstring) : eqb a b = true -> a = b.
Proof.
  revert b. induction a as [|x a IH]; intros [|y b] H; try discriminate H.
  - reflexivity.
  - cbn in H. apply andb_true_iff in H. destruct H as [H1 H2].
    apply N.eqb_eq in H1. subst y. f_equal. apply IH. exact H2.
Qed.

Lemma split_from_nonempty (sep : char16) (s cur : jsstring) :
  split_from sep s cur <> [].
Proof.
  revert cur. induction s as [|c s IH]; intros cur; cbn.
  - discriminate.
  - destruct (N.eqb c sep); [discriminate|apply IH].
Qed.

(** No piece of [split] contains the separator. *)
Lemma split_from_no_sep (sep : char16) (s cur : jsstring) :
  ~ In sep cur ->
  Forall (fun piece => ~ In sep piece) (split_from sep s cur).
Proof.
  revert cur. induction s as [|c s IH]; intros cur Hcur; cbn.
  - constructor; [exact Hcur|constructor].
  - destruct (N.eqb c sep) eqn:E.
    + constructor; [exact Hcur|]. apply IH. intros [].
    + apply IH. intros H. apply in_app_or in H. destruct H as [H|[H|[]]].
      * exact (Hcur H).
      * subst c. rewrite N.eqb_refl in E. discriminate E.
Qed.

(** The pieces of [split_ws], put together again, are the string. *)
Lemma split_ws_from_concat (s cur : jsstring) (in_space : bool) :
  List.concat (split_ws_from s cur in_space) = cur ++ s.
Proof.
  revert cur in_space. induction s as [|c s IH]; intros cur in_space; cbn.
  - destruct in_space; cbn; rewrite ?app_nil_r; reflexivity.
  - destruct (Bool.eqb (is_space c) in_space).
    + rewrite IH, <- app_assoc. reflexivity.
    + cbn. rewrite IH. reflexivity.
Qed.

Lemma concat_no_truthy (pieces : list jsstring) :
  filter truthy_str pieces = [] -> List.concat pieces = [].
Proof.
  induction pieces as [|p pieces IH]; intros H; [reflexivity|].
  cbn in H. destruct p as [|c p]; cbn in H; [|discriminate H].
  cbn. apply IH. exact H.
Qed.

(** The tokens of a non-empty hard line: there is at least one, and none is
    a lone newline when the line has no newline in it. *)
Lemma measure_parts_nonempty (measure : jsstring -> number) (line : jsstring) :
  line <> [] -> measure_parts measure (split_ws line) <> [].
Proof.
  intros Hline H. unfold measure_parts in H.
  apply map_eq_nil in H. apply concat_no_truthy in H.
  unfold split_ws in H. rewrite split_ws_from_concat in H.
  exact (Hline H).
Qed.

Lemma measure_parts_no_newline (measure : jsstring -> number)
  (line : jsstring) (seg : Segment) :
  ~ In 10%N line ->
  In seg (measure_parts measure (split_ws line)) ->
  eqb (text seg) [10%N] = false.
Proof.
  intros Hline Hin. unfold measure_parts in Hin.
  apply in_map_iff in Hin. destruct Hin as (p & <- & Hp).
  apply filter_In in Hp. destruct Hp as [Hp _]. cbn [text].
  destruct (eqb p [10%N]) eqn:E; [|reflexivity].
  apply eqb_eq in E. subst p. exfalso. apply Hline.
  assert (H : In 10%N (List.concat (split_ws line))).
  { apply in_concat. exists [10%N]. split; [exact Hp|left; reflexivity]. }
  unfold split_ws in H. rewrite split_ws_from_concat in H. exact H.
Qed.

Lemma wrap_segment_grows (mw : number) (w : Wrap) (seg : Segment) :
  (List.length (finalLines w)
   <= List.length (finalLines (wrap_segment mw w seg)))%nat
  /\ (eqb (text seg) [10%N] = false ->
      currentLine (wrap_segment mw w seg) <> []).
Proof.
  unfold wrap_segment. destruct (eqb (text seg) [10%N]).
  - split; [apply Nat.le_refl|discriminate].
  - split.
    + match goal with |- context [if ?b then _ else _] => destruct b end;
        cbn [finalLines]; [|apply Nat.le_refl].
      rewrite length_app. apply Nat.le_add_r.
    + intros _. cbn [currentLine]. intros H.
      apply app_eq_nil in H. destruct H as [_ H]. discriminate H.
Qed.

Lemma wrap_fold_grows (mw : number) (segs : list Segment) (w : Wrap) :
  (List.length (finalLines w)
   <= List.length (finalLines (fold_left (wrap_segment mw) segs w)))%nat.
Proof.
  revert w. induction segs as [|s segs IH]; intros w; cbn [fold_left].
  - apply Nat.le_refl.
  - eapply Nat.le_trans; [|apply IH]. apply wrap_segment_grows.
Qed.

Lemma wrap_fold_current (mw : number) (segs : list Segment) (w : Wrap) :
  segs <> [] ->
  (forall seg, In seg segs -> eqb (text seg) [10%N] = false) ->
  currentLine (fold_left (wrap_segment mw) segs w) <> [].
Proof.
  intros Hne Hnl.
  destruct (exists_last Hne) as (init & lst & ->).
  rewrite fold_left_app. cbn [fold_left].
  apply wrap_segment_grows. apply Hnl. apply in_or_app. right. left.
  reflexivity.
Qed.

(** Every hard line without a newline in it adds at least one line. *)
Lemma layout_line_grows (measure : jsstring -> number) (mw : number)
  (acc : list Line) (line : jsstring) :
  ~ In 10%N line ->
  (List.length acc < List.length (layout_line measure mw acc line))%nat.
Proof.
  intros Hline. unfold layout_line. destruct line as [|c line].
  - rewrite length_app. cbn. lia.
  - set (segs := measure_parts measure (split_ws (c :: line))).
    assert (Hcur : currentLine
              (fold_left (wrap_segment mw) segs
                 {| finalLines := acc; currentLine := []; currentWidth := 0 |})
              <> []).
    { apply wrap_fold_current.
      - apply measure_parts_nonempty. discriminate.
      - intros seg Hin. eapply measure_parts_no_newline; eassumption. }
    pose proof (wrap_fold_grows mw segs
      {| finalLines := acc; currentLine := []; currentWidth := 0 |}) as Hlen.
    cbn [finalLines] in Hlen.
    destruct (fold_left (wrap_segment mw) segs _) as [fl cl cw].
    cbn [finalLines currentLine currentWidth] in *.
    destruct cl as [|s cl]; [contradiction|].
    rewrite length_app. cbn. lia.
Qed.

(** With a 2D context there is at least one line. *)
Lemma lines_nonempty (ctx : Context2D) (config : VideoConfig) :
  (1 <= List.length (lines (Some ctx) config))%nat.
Proof.
  unfold lines.
  set (s := remove_chars (N.eqb 42) (script config)).
  pose proof (split_from_no_sep 10%N s [] (fun H => H)) as Hno.
  pose proof (split_from_nonempty 10%N s []) as Hne.
  fold (split 10%N s) in Hno, Hne.
  destruct (exists_last Hne) as (init & lst & E). rewrite E in *.
  rewrite fold_left_app. cbn [fold_left].
  apply Forall_app in Hno. destruct Hno as [_ Hlst].
  apply Forall_inv in Hlst.
  pose proof (layout_line_grows (ctx (textFont config)) (maxWidth config)
    (fold_left (layout_line (ctx (textFont config)) (maxWidth config)) init [])
    lst Hlst).
  lia.
Qed.

(** C9, amended: provided a 2D context could be obtained, the empty script
    is laid out as exactly one line with no segments and width 0, and every
    script gives at least one line; the text height is the number of lines
    times (font size x line height), so it is at least font size x line
    height when that product is not negative, and positive when the product
    is positive. *)
Theorem lines_at_least_one (ctx : Context2D) (config : VideoConfig) :
  (script config = [] ->
     lines (Some ctx) config = [{| segments := []; line_width := 0 |}])
  /\ (1 <= List.length (lines (Some ctx) config))%nat
  /\ (0 <= fontSize config * lineHeight config ->
      fontSize config * lineHeight config <= totalTextHeight (Some ctx) config)
  /\ (0 < fontSize config * lineHeight config ->
      0 < totalTextHeight (Some ctx) config).
Proof.
  pose proof (lines_nonempty ctx config) as Hn.
  assert (Hz : 1 <= inject_Z (Z.of_nat (List.length (lines (Some ctx) config)))).
  { change 1 with (inject_Z 1). rewrite <- Zle_Qle. lia. }
  unfold totalTextHeight.
  set (n := inject_Z (Z.of_nat (List.length (lines (Some ctx) config)))) in *.
  set (h := fontSize config * lineHeight config).
  split; [|split; [exact Hn|split]].
  - intros Hs. unfold lines. rewrite Hs. reflexivity.
  - intros Hh. nra.
  - intros Hh. nra.
Qed.

Lemma lines_at_least_one_witness :
  lines (Some monospace) (with_script [] hello_world)
    = [{| segments := []; line_width := 0 |}]
  /\ (1 <= List.length (lines (Some monospace) hello_world))%nat
  /\ 150 <= totalTextHeight (Some monospace) hello_world
  /\ 0 < totalTextHeight (Some monospace) hello_world.
Proof.
  destruct (lines_at_least_one monospace (with_script [] hello_world))
    as (A & _).
  destruct (lines_at_least_one monospace hello_world) as (_ & B & C & D).
  split; [apply A; reflexivity|]. split; [exact B|]. split.
  - eapply Qle_trans; [|apply C]; vm_compute; discriminate.
  - apply D. reflexivity.
Defined.

(** ** Text layout: what the lines are made of *)

Lemma lines_text_snoc (ls : list Line) (l : Line) :
  lines_text (ls ++ [l]) = lines_text ls ++ line_text l.
Proof.
  unfold lines_text. rewrite map_app, concat_app. cbn.
  rewrite app_nil_r. reflexivity.
Qed.

Lemma split_from_concat (sep : char16) (s cur : jsstring) :
  List.concat (split_from sep s cur) = cur ++ remove_chars (N.eqb sep) s.
Proof.
  revert cur. unfold remove_chars.
  induction s as [|c s IH]; intros cur; cbn.
  - reflexivity.
  - rewrite (N.eqb_sym sep c). destruct (N.eqb c sep); cbn.
    + rewrite IH. reflexivity.
    + rewrite IH, <- app_assoc. reflexivity.
Qed.

Lemma concat_truthy (pieces : list jsstring) :
  List.concat (filter truthy_str pieces) = List.concat pieces.
Proof.
  induction pieces as [|p pieces IH]; [reflexivity|].
  cbn. destruct p as [|c p]; cbn; rewrite IH; reflexivity.
Qed.

Lemma measure_parts_text (measure : jsstring -> number) (line : jsstring) :
  List.concat (map text (measure_parts measure (split_ws line))) = line.
Proof.
  unfold measure_parts. rewrite map_map. cbn [text]. rewrite map_id.
  rewrite concat_truthy. unfold split_ws. apply split_ws_from_concat.
Qed.

Lemma wrap_segment_text (mw : number) (w : Wrap) (seg : Segment) :
  eqb (text seg) [10%N] = false ->
  wrap_text (wrap_segment mw w seg) = wrap_text w ++ text seg.
Proof.
  intros Hnl. unfold wrap_segment. rewrite Hnl.
  match goal with |- context [if ?b then _ else _] => destruct b end;
    unfold wrap_text; cbn [finalLines currentLine].
  - rewrite lines_text_snoc. unfold line_text. cbn [segments app map List.concat].
    rewrite app_nil_r. reflexivity.
  - rewrite map_app, concat_app. cbn [map List.concat]. rewrite app_nil_r.
    rewrite app_assoc. reflexivity.
Qed.

Lemma wrap_fold_text (mw : number) (segs : list Segment) (w : Wrap) :
  (forall seg, In seg segs -> eqb (text seg) [10%N] = false) ->
  wrap_text (fold_left (wrap_segment mw) segs w)
  = wrap_text w ++ List.concat (map text segs).
Proof.
  revert w. induction segs as [|s segs IH]; intros w H; cbn [fold_left].
  - cbn. rewrite app_nil_r. reflexivity.
  - rewrite IH by (intros seg Hin; apply H; right; exact Hin).
    rewrite wrap_segment_text by (apply H; left; reflexivity).
    cbn [map List.concat]. rewrite app_assoc. reflexivity.
Qed.

Lemma layout_line_text (measure : jsstring -> number) (mw : number)
  (acc : list Line) (line : jsstring) :
  ~ In 10%N line ->
  lines_text (layout_line measure mw acc line) = lines_text acc ++ line.
Proof.
  intros Hline. unfold layout_line. destruct line as [|c line].
  - rewrite lines_text_snoc. reflexivity.
  - set (segs := measure_parts measure (split_ws (c :: line))).
    pose proof (wrap_fold_text mw segs
      {| finalLines := acc; currentLine := []; currentWidth := 0 |}
      (fun seg Hin => measure_parts_no_newline measure _ seg Hline Hin))
      as Ht.
    unfold segs in Ht at 2. rewrite measure_parts_text in Ht.
    unfold wrap_text in Ht. cbn [finalLines currentLine map List.concat] in Ht.
    rewrite app_nil_r in Ht. rewrite <- Ht.
    destruct (fold_left (wrap_segment mw) segs _) as [fl cl cw].
    cbn [finalLines currentLine currentWidth].
    destruct cl as [|s cl].
    + cbn. rewrite app_nil_r. reflexivity.
    + rewrite lines_text_snoc. reflexivity.
Qed.

Lemma layout_fold_text (measure : jsstring -> number) (mw : number)
  (raw : list jsstring) (acc : list Line) :
  Forall (fun line => ~ In 10%N line) raw ->
  lines_text (fold_left (layout_line measure mw) raw acc)
  = lines_text acc ++ List.concat raw.
Proof.
  revert acc. induction raw as [|l raw IH]; intros acc H; cbn [fold_left].
  - cbn. rewrite app_nil_r. reflexivity.
  - rewrite IH by (exact (Forall_inv_tail H)).
    rewrite layout_line_text by (exact (Forall_inv H)).
    cbn [List.concat]. rewrite app_assoc. reflexivity.
Qed.

Lemma rawLines_no_newline (config : VideoConfig) :
  Forall (fun line => ~ In 10%N line) (rawLines config).
Proof. unfold rawLines, split. apply split_from_no_sep. intros []. Qed.

(** X1: when the canvas gives a 2D context, the layout loses no character
    and adds none: the texts of all segments of all lines, read in order,
    are the script without its asterisks and its newlines. *)
Theorem layout_preserves_text (ctx : Context2D) (config : VideoConfig) :
  lines_text (lines (Some ctx) config)
  = remove_chars (N.eqb 10) (remove_chars (N.eqb 42) (script config)).
Proof.
  unfold lines. fold (rawLines config).
  rewrite layout_fold_text by apply rawLines_no_newline.
  unfold rawLines, split. rewrite split_from_concat. reflexivity.
Qed.

(** Whatever holds of every token of every hard line holds of every segment
    of every line: the wrapping loop only moves tokens around. *)
Lemma wrap_fold_segments (Q : Segment -> Prop) (mw : number)
  (segs : list Segment) (w : Wrap) :
  Forall Q segs ->
  Forall (fun l => Forall Q (segments l)) (finalLines w) ->
  Forall Q (currentLine w) ->
  Forall (fun l => Forall Q (segments l))
         (finalLines (fold_left (wrap_segment mw) segs w))
  /\ Forall Q (currentLine (fold_left (wrap_segment mw) segs w)).
Proof.
  revert w. induction segs as [|s segs IH]; intros w Hs Hf Hc;
    cbn [fold_left]; [split; assumption|].
  apply IH; [exact (Forall_inv_tail Hs)| |]; unfold wrap_segment;
    destruct (eqb (text s) [10%N]); try assumption;
    match goal with |- context [if ?b then _ else _] => destruct b end;
    cbn [finalLines currentLine]; try assumption.
  - apply Forall_app. split; [exact Hf|]. constructor; [exact Hc|constructor].
  - constructor; [exact (Forall_inv Hs)|constructor].
  - apply Forall_app. split; [exact Hc|].
    constructor; [exact (Forall_inv Hs)|constructor].
Qed.

Lemma layout_fold_segments (Q : Segment -> Prop)
  (measure : jsstring -> number) (mw : number) (raw : list jsstring)
  (acc : list Line) :
  Forall (fun line => Forall Q (measure_parts measure (split_ws line))) raw ->
  Forall (fun l => Forall Q (segments l)) acc ->
  Forall (fun l => Forall Q (segments l))
         (fold_left (layout_line measure mw) raw acc).
Proof.
  revert acc. induction raw as [|line raw IH]; intros acc Hr Ha;
    cbn [fold_left]; [exact Ha|].
  apply IH; [exact (Forall_inv_tail Hr)|].
  unfold layout_line. destruct line as [|c line].
  - apply Forall_app. split; [exact Ha|]. repeat constructor.
  - destruct (wrap_fold_segments Q mw
                (measure_parts measure (split_ws (c :: line)))
                {| finalLines := acc; currentLine := []; currentWidth := 0 |}
                (Forall_inv Hr) Ha (Forall_nil _)) as [Hf Hc].
    destruct (fold_left (wrap_segment mw) _ _) as [fl cl cw].
    cbn [finalLines currentLine currentWidth] in *.
    destruct cl as [|s cl]; [exact Hf|].
    apply Forall_app. split; [exact Hf|]. constructor; [exact Hc|constructor].
Qed.

(** Every piece of [split_ws] is a run of one kind. *)
Lemma split_ws_from_uniform (s cur : jsstring) (in_space : bool) :
  (forall c, In c cur -> is_space c = in_space) ->
  Forall (fun p => is_word p = true \/ is_gap p = true)
         (split_ws_from s cur in_space).
Proof.
  assert (Hrun : forall p b, (forall c, In c p -> is_space c = b) ->
                   is_word p = true \/ is_gap p = true).
  { intros p b H. destruct b; [right|left]; apply forallb_forall;
      intros c Hc; rewrite (H c Hc); reflexivity. }
  revert cur in_space. induction s as [|c s IH]; intros cur in_space Hcur; cbn.
  - destruct in_space.
    + constructor; [exact (Hrun _ _ Hcur)|].
      constructor; [left; reflexivity|constructor].
    + constructor; [exact (Hrun _ _ Hcur)|constructor].
  - destruct (Bool.eqb (is_space c) in_space) eqn:E.
    + apply IH. intros c' Hc'. apply in_app_or in Hc'.
      destruct Hc' as [Hc'|[<-|[]]]; [exact (Hcur _ Hc')|].
      apply eqb_prop. exact E.
    + constructor; [exact (Hrun _ _ Hcur)|]. apply IH.
      intros c' [<-|[]]. reflexivity.
Qed.

Lemma rawLines_no_asterisk (config : VideoConfig) :
  Forall (fun line => ~ In 42%N line) (rawLines config).
Proof.
  apply Forall_forall. intros line Hline H.
  assert (Hin : In 42%N (List.concat (rawLines config))).
  { apply in_concat. exists line. split; assumption. }
  unfold rawLines, split in Hin. rewrite split_from_concat in Hin.
  cbn [app] in Hin. unfold remove_chars in Hin.
  apply filter_In in Hin. destruct Hin as [Hin _].
  apply filter_In in Hin. destruct Hin as [_ Hin]. discriminate Hin.
Qed.

(** X2: every segment of every line is a token: its text is not empty, is
    either free of whitespace or made of whitespace only, contains neither
    an asterisk nor a newline, and its width is what the context measures
    for that text under the text font. *)
Theorem segments_are_tokens (ctx : Context2D) (config : VideoConfig) :
  Forall (fun l =>
    Forall (fun seg =>
      text seg <> []
      /\ (is_word (text seg) = true \/ is_gap (text seg) = true)
      /\ ~ In 42%N (text seg)
      /\ ~ In 10%N (text seg)
      /\ width seg = ctx (textFont config) (text seg)) (segments l))
    (lines (Some ctx) config).
Proof.
  unfold lines. fold (rawLines config).
  apply layout_fold_segments; [|constructor].
  pose proof (rawLines_no_asterisk config) as Hast.
  pose proof (rawLines_no_newline config) as Hnl.
  rewrite Forall_forall in *. intros line Hline.
  specialize (Hast line Hline). specialize (Hnl line Hline).
  apply Forall_forall. intros seg Hseg.
  unfold measure_parts in Hseg. apply in_map_iff in Hseg.
  destruct Hseg as (p & <- & Hp). apply filter_In in Hp.
  destruct Hp as [Hp Htruthy]. cbn [text width].
  assert (Hsub : forall c, In c p -> In c line).
  { intros c Hc.
    assert (H : In c (List.concat (split_ws line))).
    { apply in_concat. exists p. split; assumption. }
    unfold split_ws in H. rewrite split_ws_from_concat in H. exact H. }
  split; [|split; [|split; [|split]]].
  - intros ->. discriminate Htruthy.
  - pose proof (split_ws_from_uniform line [] false (fun c H => match H with end))
      as Hu.
    rewrite Forall_forall in Hu. exact (Hu p Hp).
  - intros H. exact (Hast (Hsub _ H)).
  - intros H. exact (Hnl (Hsub _ H)).
  - reflexivity.
Qed.

Lemma layout_fold_grows (measure : jsstring -> number) (mw : number)
  (raw : list jsstring) (acc : list Line) :
  Forall (fun line => ~ In 10%N line) raw ->
  (List.length acc + List.length raw
   <= List.length (fold_left (layout_line measure mw) raw acc))%nat.
Proof.
  revert acc. induction raw as [|l raw IH]; intros acc H; cbn [fold_left].
  - cbn. lia.
  - specialize (IH (layout_line measure mw acc l) (Forall_inv_tail H)).
    pose proof (layout_line_grows measure mw acc l (Forall_inv H)).
    cbn [List.length]. lia.
Qed.

(** X3: when the canvas gives a 2D context, there is at least one line per
    hard line of the script, so a script with [n] newlines is laid out in
    at least [n + 1] lines. *)
Theorem line_per_hard_line (ctx : Context2D) (config : VideoConfig) :
  (List.length (rawLines config)
   <= List.length (lines (Some ctx) config))%nat
  /\ List.length (rawLines config)
     = S (List.length (filter (N.eqb 10)
                         (remove_chars (N.eqb 42) (script config)))).
Proof.
  split.
  - unfold lines. fold (rawLines config).
    pose proof (layout_fold_grows (ctx (textFont config)) (maxWidth config)
                  (rawLines config) [] (rawLines_no_newline config)) as H.
    cbn [List.length] in H. lia.
  - unfold rawLines, split.
    generalize (remove_chars (N.eqb 42) (script config)) as s.
    generalize (@nil char16) as cur.
    intros cur s. revert cur.
    induction s as [|c s IH]; intros cur; cbn [split_from filter].
    + reflexivity.
    + rewrite (N.eqb_sym 10 c). destruct (N.eqb c 10);
        cbn [List.length]; rewrite IH; reflexivity.
Qed.

Lemma remove_chars_absent (p : char16 -> bool) (s : jsstring) :
  (forall c, In c s -> p c = false) -> remove_chars p s = s.
Proof.
  unfold remove_chars. induction s as [|c s IH]; intros H; [reflexivity|].
  cbn [filter]. rewrite (H c (or_introl eq_refl)). cbn [negb].
  rewrite IH; [reflexivity|]. intros c' Hc'. apply H. right. exact Hc'.
Qed.

Lemma split_from_absent (sep : char16) (s cur : jsstring) :
  ~ In sep s -> split_from sep s cur = [cur ++ s].
Proof.
  revert cur. induction s as [|c s IH]; intros cur H; cbn [split_from].
  - rewrite app_nil_r. reflexivity.
  - destruct (N.eqb c sep) eqn:E.
    + apply N.eqb_eq in E. subst c. exfalso. apply H. left. reflexivity.
    + rewrite IH by (intros Hin; apply H; right; exact Hin).
      rewrite <- app_assoc. reflexivity.
Qed.

Lemma split_ws_from_word (s cur : jsstring) :
  is_word s = true -> split_ws_from s cur false = [cur ++ s].
Proof.
  revert cur. induction s as [|c s IH]; intros cur H; cbn [split_ws_from].
  - rewrite app_nil_r. reflexivity.
  - cbn [is_word forallb] in H. apply andb_true_iff in H.
    destruct H as [Hc Hs]. apply negb_true_iff in Hc. rewrite Hc.
    cbn [Bool.eqb]. rewrite (IH _ Hs), <- app_assoc. reflexivity.
Qed.

Lemma trimStart_word (s : jsstring) : is_word s = true -> trimStart s = s.
Proof.
  destruct s as [|c s]; [reflexivity|]. intros H.
  cbn [is_word forallb] in H. apply andb_true_iff in H.
  destruct H as [Hc _]. apply negb_true_iff in Hc.
  cbn [trimStart]. rewrite Hc. reflexivity.
Qed.

Lemma trim_word (s : jsstring) : is_word s = true -> trim s = s.
Proof.
  intros H. unfold trim, trimEnd. rewrite (trimStart_word s H).
  rewrite trimStart_word; [apply rev_involutive|].
  unfold is_word in *. rewrite forallb_forall in *.
  intros c Hc. apply H. apply in_rev. exact Hc.
Qed.

Lemma word_no_newline (s : jsstring) : is_word s = true -> ~ In 10%N s.
Proof.
  intros H Hin. unfold is_word in H. rewrite forallb_forall in H.
  specialize (H _ Hin). discriminate H.
Qed.

Lemma measure_parts_word (measure : jsstring -> number) (word : jsstring) :
  word <> [] -> is_word word = true ->
  measure_parts measure (split_ws word)
  = [ {| text := word; width := measure word |} ].
Proof.
  intros Hne Hword. unfold split_ws. rewrite (split_ws_from_word _ _ Hword).
  cbn [app]. unfold measure_parts.
  destruct word; [contradiction|reflexivity].
Qed.

Lemma layout_line_nonempty (measure : jsstring -> number) (mw : number)
  (acc : list Line) (line : jsstring) :
  line <> [] ->
  layout_line measure mw acc line
  = let w := fold_left (wrap_segment mw)
               (measure_parts measure (split_ws line))
               {| finalLines := acc; currentLine := []; currentWidth := 0 |} in
    match currentLine w with
    | [] => finalLines w
    | _ => finalLines w ++
             [{| segments := currentLine w; line_width := currentWidth w |}]
    end.
Proof. intros H. destruct line; [contradiction|reflexivity]. Qed.

(** X4: a script that is one word (no whitespace, no asterisk) wider than
    [maxWidth] is laid out as an empty line followed by the word alone: the
    break before an overflowing token is taken even when the running line
    is still empty. *)
Theorem overwide_word_layout (ctx : Context2D) (config : VideoConfig) :
  script config <> [] ->
  is_word (script config) = true ->
  ~ In 42%N (script config) ->
  maxWidth config < ctx (textFont config) (script config) ->
  lines (Some ctx) config
  = [ {| segments := []; line_width := 0 |};
      {| segments := [ {| text := script config;
                          width := ctx (textFont config) (script config) |} ];
         line_width := 0 + ctx (textFont config) (script config) |} ].
Proof.
  intros Hne Hword Hast Hwide. unfold lines.
  set (word := script config) in *.
  rewrite remove_chars_absent.
  2:{ intros c Hc. destruct (N.eqb 42 c) eqn:E; [|reflexivity].
      apply N.eqb_eq in E. subst c. contradiction. }
  unfold split. rewrite split_from_absent by (apply word_no_newline; exact Hword).
  cbn [app fold_left].
  rewrite (layout_line_nonempty _ _ _ _ Hne).
  rewrite (measure_parts_word _ _ Hne Hword).
  cbv zeta. cbn [fold_left]. unfold wrap_segment. cbn [text width currentWidth].
  assert (Hnl : eqb word [10%N] = false).
  { destruct (eqb word [10%N]) eqn:E; [|reflexivity].
    apply eqb_eq in E. rewrite E in Hword. discriminate Hword. }
  assert (Hg : gtb (0 + ctx (textFont config) word) (maxWidth config) = true).
  { apply gtb_true. lra. }
  assert (Hlen : Nat.ltb 0 (List.length (trim word)) = true).
  { rewrite (trim_word _ Hword). destruct word; [contradiction|reflexivity]. }
  rewrite Hnl, Hg, Hlen.
  cbn [andb finalLines currentLine currentWidth app].
  reflexivity.
Qed.

Lemma overwide_word_layout_witness :
  lines (Some monospace) (with_script (str "aaaaaaaaaaaaaaaaaa") hello_world)
  = [ {| segments := []; line_width := 0 |};
      {| segments := [ {| text := str "aaaaaaaaaaaaaaaaaa";
                          width := monospace (textFont hello_world)
                                     (str "aaaaaaaaaaaaaaaaaa") |} ];
         line_width := 0 + monospace (textFont hello_world)
                             (str "aaaaaaaaaaaaaaaaaa") |} ].
Proof.
  apply (overwide_word_layout monospace
           (with_script (str "aaaaaaaaaaaaaaaaaa") hello_world)).
  - discriminate.
  - reflexivity.
  - vm_compute. intuition discriminate.
  - reflexivity.
Defined.

Lemma fold_width_ge (segs : list Segment) (a : number) :
  Forall (fun seg => 0 <= width seg) segs ->
  a <= fold_left (fun acc s => acc + width s) segs a.
Proof.
  revert a. induction segs as [|s segs IH]; intros a H; cbn [fold_left].
  - apply Qle_refl.
  - eapply Qle_trans; [|apply IH; exact (Forall_inv_tail H)].
    pose proof (Forall_inv H) as Hs. cbn beta in Hs. lra.
Qed.

(** Tokens that all fit are appended one after the other, without a break. *)
Lemma wrap_fold_no_break (mw : number) (segs : list Segment)
  (acc : list Line) (cur : list Segment) (cw : number) :
  Forall (fun seg => eqb (text seg) [10%N] = false /\ 0 <= width seg) segs ->
  fold_left (fun a s => a + width s) segs cw <= mw ->
  fold_left (wrap_segment mw) segs
    {| finalLines := acc; currentLine := cur; currentWidth := cw |}
  = {| finalLines := acc; currentLine := cur ++ segs;
       currentWidth := fold_left (fun a s => a + width s) segs cw |}.
Proof.
  revert cur cw. induction segs as [|s segs IH]; intros cur cw Hs Hfit;
    cbn [fold_left].
  - rewrite app_nil_r. reflexivity.
  - cbn [fold_left] in Hfit.
    destruct (Forall_inv Hs) as [Hnl Hw].
    assert (Htail : Forall (fun seg => 0 <= width seg) segs).
    { eapply Forall_impl; [|exact (Forall_inv_tail Hs)]. intros a [_ H].
      exact H. }
    pose proof (fold_width_ge segs (cw + width s) Htail) as Hge.
    unfold wrap_segment at 2. rewrite Hnl. cbn [currentWidth].
    assert (Hg : gtb (cw + width s) mw = false).
    { apply gtb_false. lra. }
    rewrite Hg. cbn [andb finalLines currentLine currentWidth].
    rewrite (IH _ _ (Forall_inv_tail Hs) Hfit).
    rewrite <- app_assoc. reflexivity.
Qed.

(** X5: when the context measures no negative width, a script without a
    newline whose tokens add up to at most [maxWidth] is laid out as a
    single line holding all its tokens, the width of the line being their
    sum.  (An empty script falls under C9.) *)
Theorem fitting_script_is_one_line (ctx : Context2D) (config : VideoConfig) :
  (forall s, 0 <= ctx (textFont config) s) ->
  ~ In 10%N (script config) ->
  remove_chars (N.eqb 42) (script config) <> [] ->
  let tokens :=
    measure_parts (ctx (textFont config))
      (split_ws (remove_chars (N.eqb 42) (script config))) in
  sum_width tokens <= maxWidth config ->
  lines (Some ctx) config
  = [ {| segments := tokens; line_width := sum_width tokens |} ].
Proof.
  intros Hpos Hnl Hne tokens Hfit. unfold lines.
  set (s := remove_chars (N.eqb 42) (script config)) in *.
  assert (Hnl' : ~ In 10%N s).
  { intros H. apply Hnl. unfold s, remove_chars in H.
    apply filter_In in H. exact (proj1 H). }
  unfold split. rewrite (split_from_absent _ _ _ Hnl').
  cbn [app fold_left].
  rewrite (layout_line_nonempty _ _ _ _ Hne). fold tokens. cbv zeta.
  assert (Htok : Forall (fun seg => eqb (text seg) [10%N] = false
                                    /\ 0 <= width seg) tokens).
  { apply Forall_forall. intros seg Hseg. split.
    - eapply measure_parts_no_newline; eassumption.
    - unfold tokens, measure_parts in Hseg. apply in_map_iff in Hseg.
      destruct Hseg as (p & <- & _). apply Hpos. }
  rewrite (wrap_fold_no_break _ _ _ _ _ Htok Hfit).
  cbn [finalLines currentLine currentWidth app].
  assert (Htne : tokens <> []) by (apply measure_parts_nonempty; exact Hne).
  destruct tokens as [|t tokens'] eqn:Et; [contradiction|].
  reflexivity.
Qed.

Lemma monospace_nonneg (font : Font) (s : jsstring) :
  0 <= font_px font -> 0 <= monospace font s.
Proof.
  intros H. unfold monospace. apply Qmult_le_0_compat; [exact H|].
  change 0 with (inject_Z 0). rewrite <- Zle_Qle. lia.
Qed.

Lemma fitting_script_is_one_line_witness :
  let config := with_script (str "Hello  World") hello_world in
  lines (Some monospace) config
  = [ {| segments :=
           measure_parts (monospace (textFont config))
             (split_ws (remove_chars (N.eqb 42) (script config)));
         line_width :=
           sum_width
             (measure_parts (monospace (textFont config))
                (split_ws (remove_chars (N.eqb 42) (script config)))) |} ].
Proof.
  cbv zeta.
  apply (fitting_script_is_one_line monospace
           (with_script (str "Hello  World") hello_world)).
  - intros s. apply monospace_nonneg. vm_compute. discriminate.
  - vm_compute. intuition discriminate.
  - discriminate.
  - vm_compute. discriminate.
Defined.

(** ** Auto speed against the audio duration *)

(** [Math.max] returns its first argument itself when that is the larger
    one. *)
Lemma Qmax_left (x y : Q) : y <= x -> Qmax x y = x.
Proof.
  intros H. unfold Qmax, GenericMinMax.gmax.
  destruct (Qcompare_spec x y) as [E|E|E]; try reflexivity.
  exfalso. exact (Qlt_not_le _ _ E H).
Qed.

(** X6: with auto-speed and a positive audio duration [D], the text covers
    its whole distance (text height + viewport height) in [D] seconds
    within rounding tolerance.  When every operation is rounded with a
    relative error of at most [u], the speed is at least 10, the computed
    speed times [D] is at least [(1 - u)^2] times the computed distance,
    and unless the 10 px/s floor applies it differs from the distance by at
    most [2u + u^2] times the distance. *)
Theorem auto_speed_covers_distance (u : number) (fl : Rounding)
  (ctx : option Context2D) (config : VideoConfig) (D : number) :
  rounds_within u fl ->
  u <= 1 ->
  autoScrollSpeed config = true ->
  0 < D ->
  0 <= Rounded.totalDistance fl ctx config ->
  let speed := Rounded.effectiveScrollSpeed fl ctx config D in
  let distance := Rounded.totalDistance fl ctx config in
  10 <= speed
  /\ (1 - u) * (1 - u) * distance <= fl (speed * D)
  /\ (10 <= fl (distance / D) ->
      Qabs (fl (speed * D) - distance) <= (2 * u + u * u) * distance).
Proof.
  intros R Hu Ha HD Htd. cbv zeta.
  pose proof (rounds_within_nonneg u fl R) as Hu0.
  unfold Rounded.effectiveScrollSpeed, Rounded.calculatedAutoSpeed.
  rewrite Ha. apply gtb_true in HD as Hg. rewrite Hg. cbn [andb].
  set (td := Rounded.totalDistance fl ctx config) in *.
  set (q := fl (td / D)).
  assert (Hq0 : 0 <= td / D).
  { apply Qle_shift_div_l; [exact HD|]. lra. }
  pose proof (rounded_lower u fl (td / D) R Hq0) as Hq. fold q in Hq.
  assert (Etd : td / D * D == td) by (field; lra).
  pose proof (Q.le_max_l q 10) as M1. pose proof (Q.le_max_r q 10) as M2.
  set (speed := Qmax q 10) in *.
  split; [exact M2|]. split.
  - assert (Hp : 0 <= speed * D) by nra.
    pose proof (rounded_lower u fl (speed * D) R Hp) as Hfl.
    assert (H1 : (1 - u) * td <= speed * D) by nra.
    nra.
  - intros Hraw. subst speed. rewrite (Qmax_left q 10 Hraw). subst q.
    assert (HD' : ~ D == 0) by lra.
    pose proof (rounded_quotient_product u fl td D R HD') as P.
    rewrite (Qabs_pos td Htd) in P. exact P.
Qed.

(** In binary64, an audio of 7 s for the distance 1380. *)
Lemma auto_speed_covers_distance_witness :
  let config := with_speed 50 true hello_world in
  let ctx := Some monospace in
  let u := 1 # 2 ^ 53 in
  let speed := Rounded.effectiveScrollSpeed binary64 ctx config 7 in
  let distance := Rounded.totalDistance binary64 ctx config in
  10 <= speed
  /\ (1 - u) * (1 - u) * distance <= binary64 (speed * 7)
  /\ (10 <= binary64 (distance / 7) ->
      Qabs (binary64 (speed * 7) - distance) <= (2 * u + u * u) * distance).
Proof.
  cbv zeta.
  apply (auto_speed_covers_distance (1 # 2 ^ 53) binary64 (Some monospace)
           (with_speed 50 true hello_world) 7 binary64_rounds).
  - vm_compute. discriminate.
  - reflexivity.
  - reflexivity.
  - vm_compute. discriminate.
Defined.

(** ** Main text of a frame *)

Lemma drawSegment_fold_band (config : VideoConfig) (y : number)
  (segs : list Segment) (st : list DrawCmd * number) :
  text_in_band config (FillText [] 0 y) ->
  Forall (text_in_band config) (fst st) ->
  Forall (text_in_band config) (fst (fold_left (drawSegment y) segs st)).
Proof.
  intros Hy. revert st. induction segs as [|s segs IH]; intros st H;
    cbn [fold_left]; [exact H|].
  apply IH. unfold drawSegment. cbn [fst].
  apply Forall_app. split; [exact H|]. constructor; [exact Hy|constructor].
Qed.

Lemma drawLine_fold_band (config : VideoConfig) (align : TextAlign)
  (ls : list Line) (st : list DrawCmd * number) :
  Forall (text_in_band config) (fst st) ->
  Forall (text_in_band config)
    (fst (fold_left (drawLine config align
                       (fontSize config * lineHeight config)) ls st)).
Proof.
  revert st. induction ls as [|l ls IH]; intros st H; cbn [fold_left];
    [exact H|].
  apply IH. unfold drawLine. cbn [fst].
  destruct (gtb (snd st + fontSize config * lineHeight config) 0) eqn:E1;
    [|exact H].
  destruct (Qle_bool (snd st) (CANVAS_HEIGHT config)) eqn:E2; [|exact H].
  cbn [andb]. apply drawSegment_fold_band; [|exact H].
  split; [apply gtb_true; exact E1|apply Qle_bool_iff; exact E2].
Qed.

(** X7: every text command of a frame is placed in the visible band: its
    line ends below the top edge ([y + lineHeight > 0]) and starts at or
    above the bottom edge ([y <= CANVAS_HEIGHT]); lines outside are not
    drawn at all. *)
Theorem main_text_in_band (ctx : option Context2D) (config : VideoConfig)
  (align : TextAlign) (D time : number) :
  Forall (text_in_band config) (renderMainText ctx config align D time).
Proof.
  unfold renderMainText, renderText. apply drawLine_fold_band. constructor.
Qed.

(** [yPos] only grows over the lines when the line height is not negative,
    and a line whose lower edge is not below the top edge draws nothing. *)
Lemma drawLine_fold_above (config : VideoConfig) (align : TextAlign)
  (lh : number) (ls : list Line) (cmds : list DrawCmd) (y : number) :
  0 <= lh ->
  y <= snd (fold_left (drawLine config align lh) ls (cmds, y))
  /\ (snd (fold_left (drawLine config align lh) ls (cmds, y)) <= 0 ->
      fst (fold_left (drawLine config align lh) ls (cmds, y)) = cmds).
Proof.
  intros Hlh. revert cmds y.
  induction ls as [|l ls IH]; intros cmds y; cbn [fold_left].
  - split; [apply Qle_refl|reflexivity].
  - set (c' := fst (drawLine config align lh (cmds, y) l)).
    assert (E : drawLine config align lh (cmds, y) l = (c', y + lh))
      by reflexivity.
    rewrite E. destruct (IH c' (y + lh)) as [Hmono Hnone].
    assert (Hy : y <= y + lh) by lra.
    split; [exact (Qle_trans _ _ _ Hy Hmono)|]. intros Hend.
    transitivity c'; [exact (Hnone Hend)|]. subst c'. unfold drawLine. cbn [fst snd].
    assert (Hg : gtb (y + lh) 0 = false).
    { apply gtb_false. exact (Qle_trans _ _ _ Hmono Hend). }
    rewrite Hg. reflexivity.
Qed.

(** X8: once the lower edge of the last line is at or above the top edge
    of the canvas, the frame has no text command: with a non-negative line
    height, when [yPos] leaves the loop over the lines at or below 0,
    nothing was drawn. *)
Theorem main_text_gone_above_top (config : VideoConfig) (align : TextAlign)
  (ls : list Line) (speed time : number) :
  0 <= fontSize config * lineHeight config ->
  textEndY config align ls speed time <= 0 ->
  renderText config align ls speed time = [].
Proof.
  intros Hlh Hend. unfold renderText, textEndY in *. cbv zeta in *.
  apply (drawLine_fold_above config align _ ls [] _ Hlh). exact Hend.
Qed.

Lemma main_text_gone_above_top_witness :
  renderText hello_world AlignCenter (lines (Some monospace) hello_world)
    (effectiveScrollSpeed (Some monospace) hello_world 0) 30 = [].
Proof.
  apply main_text_gone_above_top.
  - vm_compute. discriminate.
  - vm_compute. discriminate.
Defined.

(** The commands of one line: one per segment, each starting where the
    previous one ended. *)
Lemma drawSegment_fold_spec (y : number) (segs : list Segment)
  (cmds : list DrawCmd) (x : number) :
  Forall (fun seg => 0 <= width seg) segs ->
  exists new,
    fst (fold_left (drawSegment y) segs (cmds, x)) = cmds ++ new
    /\ Forall2 (fun seg cmd =>
         exists x', cmd = FillText (text seg) x' y
                    /\ x <= x'
                    /\ x' + width seg
                       <= fold_left (fun acc s => acc + width s) segs x)
       segs new.
Proof.
  revert cmds x. induction segs as [|s segs IH]; intros cmds x Hpos;
    cbn [fold_left].
  - exists []. split; [rewrite app_nil_r; reflexivity|constructor].
  - pose proof (Forall_inv Hpos) as Hs. cbn beta in Hs.
    pose proof (Forall_inv_tail Hpos) as Htail.
    change (drawSegment y (cmds, x) s)
      with (cmds ++ [FillText (text s) x y], x + width s).
    destruct (IH (cmds ++ [FillText (text s) x y]) (x + width s) Htail)
      as (new & Hnew & Hall).
    exists (FillText (text s) x y :: new). split.
    + rewrite <- app_assoc in Hnew. exact Hnew.
    + constructor.
      * exists x. split; [reflexivity|]. split; [apply Qle_refl|].
        apply fold_width_ge. exact Htail.
      * eapply Forall2_impl; [|exact Hall].
        intros seg cmd (x' & E & Hlo & Hhi). exists x'.
        split; [exact E|]. split; [lra|exact Hhi].
Qed.

Lemma half_eq (a : Q) : a / 2 == a * (1 # 2).
Proof. reflexivity. Qed.

(** X9: a line that is at most [maxWidth] wide, with segments of
    non-negative width, is drawn with one command per segment, in order,
    each with the text of its segment at the height of the line, and none
    of them starts left of the left padding, for each of the three
    alignments. *)
Theorem fitting_line_starts_in_padding (config : VideoConfig)
  (align : TextAlign) (line : Line) (y : number) :
  Forall (fun seg => 0 <= width seg) (segments line) ->
  line_width line <= maxWidth config ->
  Forall2 (fun seg cmd =>
     exists x, cmd = FillText (text seg) x y /\ PADDING_X config <= x)
    (segments line)
    (fst (fold_left (drawSegment y) (segments line)
            ([], lineStartX config align line))).
Proof.
  intros Hpos Hfit.
  destruct (drawSegment_fold_spec y (segments line) []
              (lineStartX config align line) Hpos) as (new & Hnew & Hall).
  rewrite Hnew. cbn [app].
  eapply Forall2_impl; [|exact Hall].
  intros seg cmd (x & E & Hlo & _). exists x. split; [exact E|].
  unfold maxWidth in Hfit.
  destruct align; unfold lineStartX in Hlo; cbv zeta in Hlo;
    rewrite ?half_eq in Hlo; lra.
Qed.

Lemma fitting_line_starts_in_padding_witness :
  let line := {| segments := [ {| text := str "Hello"; width := 500 |};
                               {| text := str " "; width := 100 |} ];
                 line_width := 600 |} in
  Forall2 (fun seg cmd =>
     exists x, cmd = FillText (text seg) x 540 /\ PADDING_X hello_world <= x)
    (segments line)
    (fst (fold_left (drawSegment 540) (segments line)
            ([], lineStartX hello_world AlignRight line))).
Proof.
  cbv zeta. apply fitting_line_starts_in_padding.
  - repeat constructor; cbn; discriminate.
  - vm_compute. discriminate.
Defined.

(** ** Ticker: where the copies start *)

(** X11: while the ticker runs forward (time and ticker speed not negative,
    text width not negative), the first copy of the text starts at the
    right edge of the canvas at time 0, and at any time not right of that
    edge and not more than one loop width left of it; the two other copies
    are drawn one loop width to its right and to its left. *)
Theorem ticker_start_within_loop (ctx : Context2D) (config : VideoConfig)
  (time : number) :
  0 <= time ->
  0 <= tickerSpeed config ->
  0 <= tickerTextWidth ctx config ->
  CANVAS_WIDTH config - tickerLoopWidth ctx config
  <= tickerStartX ctx config time
  /\ tickerStartX ctx config time <= CANVAS_WIDTH config
  /\ tickerStartX ctx config 0 == CANVAS_WIDTH config
  /\ (truthy_str (tickerText config) = true ->
      textCopies (renderTicker ctx config time)
      = [ tickerStartX ctx config time;
          tickerStartX ctx config time + tickerLoopWidth ctx config;
          tickerStartX ctx config time - tickerLoopWidth ctx config ]).
Proof.
  intros Htime Hspeed Hw.
  assert (HL : 0 < tickerLoopWidth ctx config).
  { unfold tickerLoopWidth. lra. }
  assert (Ha : 0 <= time * tickerSpeed config).
  { apply Qmult_le_0_compat; assumption. }
  destruct (rem_bounds _ _ Ha HL) as [Hs0 Hs1].
  assert (H0 : 0 <= 0 * tickerSpeed config) by lra.
  destruct (rem_bounds _ _ H0 HL) as [Hz0 Hz1].
  assert (Hz : rem (0 * tickerSpeed config) (tickerLoopWidth ctx config) == 0).
  { unfold rem in *.
    assert (T : trunc (0 * tickerSpeed config / tickerLoopWidth ctx config)
                = 0%Z).
    { unfold trunc. destruct (tickerSpeed config) as [n d].
      destruct (tickerLoopWidth ctx config) as [n' d'].
      unfold Qdiv, Qinv, Qmult. destruct n'; reflexivity. }
    rewrite T. change (inject_Z 0) with 0. lra. }
  unfold tickerStartX. split; [lra|]. split; [lra|]. split; [lra|].
  intros Ht. apply renderTicker_copies. exact Ht.
Qed.

Lemma ticker_start_within_loop_witness :
  let config := with_ticker (str "News") hello_world in
  1920 - 460 <= tickerStartX monospace config (23 / 5)
  /\ tickerStartX monospace config (23 / 5) <= 1920
  /\ tickerStartX monospace config 0 == 1920.
Proof.
  cbv zeta.
  destruct (ticker_start_within_loop monospace
              (with_ticker (str "News") hello_world) (23 / 5))
    as (A & B & C & _).
  - vm_compute; discriminate.
  - vm_compute; discriminate.
  - vm_compute; discriminate.
  - split; [|split].
    + eapply Qle_trans; [|exact A]. vm_compute. discriminate.
    + eapply Qle_trans; [exact B|]. vm_compute. discriminate.
    + rewrite C. reflexivity.
Defined.

(** ** Monitor effect *)

(** X12: whatever the flags, the mute-monitor effect leaves the audio
    context, the two capture-path gain nodes and the current value of every
    gain alone; and when it is not muting (not exporting, or [muteOnExport]
    off) it ramps the main monitor towards 0.95 and the background-music
    monitor towards the configured background volume, which is how the
    monitor comes back after an export. *)
Theorem mute_effect_frame (isExp : bool) (config : VideoConfig)
  (g : AudioGraph) :
  let g' := muteMonitorEffect isExp config g in
  audioContextRef g' = audioContextRef g
  /\ mainAudioGainNodeRef g' = mainAudioGainNodeRef g
  /\ bgMusicGainNodeRef g' = bgMusicGainNodeRef g
  /\ option_map (fun n => value (gain n)) (monitorGainNodeRef g')
     = option_map (fun n => value (gain n)) (monitorGainNodeRef g)
  /\ option_map (fun n => value (gain n)) (bgMusicMonitorGainNodeRef g')
     = option_map (fun n => value (gain n)) (bgMusicMonitorGainNodeRef g)
  /\ (isExp && muteOnExport config = false ->
      forall ctx, audioContextRef g = Some ctx ->
        monitorGainNodeRef g'
        = option_map (fun n => setTargetAtTime n 0.95 (contextTime ctx) 0.1)
                     (monitorGainNodeRef g)
        /\ bgMusicMonitorGainNodeRef g'
           = option_map
               (fun n => setTargetAtTime n (bgMusicVolume config)
                           (contextTime ctx) 0.1)
               (bgMusicMonitorGainNodeRef g)).
Proof.
  cbv zeta. unfold muteMonitorEffect.
  destruct (audioContextRef g) as [ctx|] eqn:Ectx.
  - cbn [audioContextRef mainAudioGainNodeRef monitorGainNodeRef
         bgMusicGainNodeRef bgMusicMonitorGainNodeRef].
    split; [reflexivity|]. split; [reflexivity|]. split; [reflexivity|].
    split; [destruct (monitorGainNodeRef g); reflexivity|].
    split; [destruct (bgMusicMonitorGainNodeRef g); reflexivity|].
    intros Hm c Hc. injection Hc as <-. rewrite Hm. split; reflexivity.
  - split; [exact Ectx|]. split; [reflexivity|]. split; [reflexivity|].
    split; [reflexivity|]. split; [reflexivity|].
    intros _ c Hc. discriminate Hc.
Qed.

Lemma mute_effect_frame_witness :
  let g' := muteMonitorEffect false hello_world full_graph in
  option_map (fun n => automation (gain n)) (monitorGainNodeRef g')
    = Some [SetTargetAtTime 0.95 12 0.1]
  /\ option_map (fun n => automation (gain n)) (bgMusicMonitorGainNodeRef g')
    = Some [SetTargetAtTime 0.5 12 0.1].
Proof.
  cbv zeta.
  destruct (mute_effect_frame false hello_world full_graph)
    as (_ & _ & _ & _ & _ & H).
  destruct (H eq_refl _ eq_refl) as [Hm Hb].
  rewrite Hm, Hb. split; reflexivity.
Defined.

(** ** Start/stop audio effect: background music *)

(** What the effect has done once the primary audio has been dealt with:
    the background element and the current time are untouched. *)
Lemma start_main_audio (config : VideoConfig) (playMain : PlayResult)
  (st : PlayerState) :
  exists st1,
    match audioRef st with
    | Some a =>
        if truthy_opt_str (audioUrl config) && isAudioReady st
           && negb (audioError st)
        then r <- play_catch playMain a (Some onPlaybackFailed) st ;;
             Normal (setAudio (Some (fst r)) (snd r))
        else Normal st
    | None => Normal st
    end = Normal st1
    /\ bgMusicRef st1 = bgMusicRef st
    /\ currentTime st1 = currentTime st
    /\ (playMain = Fulfilled ->
        isPlaying st1 = isPlaying st /\ console st1 = console st).
Proof.
  destruct (audioRef st) as [a|];
    [|eexists; split; [reflexivity|repeat split; reflexivity]].
  destruct (truthy_opt_str (audioUrl config) && isAudioReady st
            && negb (audioError st));
    [|eexists; split; [reflexivity|repeat split; reflexivity]].
  destruct playMain; cbn [play_catch bind fst snd];
    eexists; (split; [reflexivity|]); repeat split; try reflexivity;
    discriminate.
Qed.

(** X14: when playback starts in the foreground with background music
    whose duration [d] is finite and positive, the music is positioned at
    the current time modulo [d]: for a non-negative current time its
    position lies in [[0, d)], whatever becomes of the two [play()] calls;
    and it is playing when its own [play()] is fulfilled. *)
Theorem background_music_wraps (config : VideoConfig) (now : number)
  (playMain playBg : PlayResult) (st : PlayerState) (b : Audio.Element)
  (d : number) :
  isExporting st = false ->
  isPlaying st = true ->
  truthy_opt_str (bgMusicUrl config) = true ->
  bgMusicRef st = Some b ->
  Audio.duration b = Some d ->
  0 < d ->
  0 <= currentTime st ->
  exists st' b',
    startStopAudioEffect config now playMain playBg st = Normal st'
    /\ bgMusicRef st' = Some b'
    /\ Audio.currentTime b' = rem (currentTime st) d
    /\ 0 <= Audio.currentTime b' < d
    /\ (playBg = Fulfilled -> Audio.paused b' = false).
Proof.
  intros Hexp Hplay Hurl Hb Hd Hpos Ht.
  pose proof (rem_bounds _ _ Ht Hpos) as Hrem.
  apply gtb_true in Hpos as Hg.
  unfold startStopAudioEffect. rewrite Hexp, Hplay.
  destruct (start_main_audio config playMain (setLastTimeRef now st))
    as (st1 & -> & Hb1 & Ht1 & _).
  cbn [bgMusicRef currentTime setLastTimeRef] in Hb1, Ht1.
  cbn [bind]. rewrite Hb1, Hb, Hurl, Hd, Hg, Ht1.
  destruct playBg; cbn [play_catch bind fst snd];
    eexists; eexists; (split; [reflexivity|]); cbn;
    (split; [reflexivity|]); (split; [reflexivity|]);
    (split; [exact Hrem|]); intros H; try reflexivity; discriminate H.
Qed.

Lemma background_music_wraps_witness :
  let st := setBgMusic (Some looping_music) (setCurrentTime 21 playing_state) in
  exists st' b',
    startStopAudioEffect music_config 0 Fulfilled Fulfilled st = Normal st'
    /\ bgMusicRef st' = Some b'
    /\ Audio.currentTime b' = rem (currentTime st) 8
    /\ 0 <= Audio.currentTime b' < 8
    /\ (Fulfilled = Fulfilled -> Audio.paused b' = false).
Proof.
  cbv zeta.
  apply (background_music_wraps music_config 0 Fulfilled Fulfilled _
           looping_music 8); try reflexivity.
  vm_compute. discriminate.
Defined.

(** X15: the start/stop audio effect always completes normally, whatever
    the state and the outcomes of the two [play()] calls; and a rejected
    start of the background music is swallowed without a trace: the playing
    flag, the console, the time and the primary audio element come out as
    if that [play()] had been fulfilled. *)
Theorem start_stop_effect_completes (config : VideoConfig) (now : number)
  (playMain : PlayResult) (e : jsstring) (st : PlayerState) :
  exists s1 s2,
    startStopAudioEffect config now playMain (Rejected e) st = Normal s1
    /\ startStopAudioEffect config now playMain Fulfilled st = Normal s2
    /\ isPlaying s1 = isPlaying s2
    /\ console s1 = console s2
    /\ currentTime s1 = currentTime s2
    /\ audioRef s1 = audioRef s2.
Proof.
  unfold startStopAudioEffect.
  destruct (isExporting st);
    [exists st, st; repeat split; reflexivity|].
  destruct (isPlaying st) eqn:Hplay.
  - destruct (start_main_audio config playMain (setLastTimeRef now st))
      as (st1 & -> & _).
    cbn [bind].
    destruct (bgMusicRef st1) as [b|];
      [|exists st1, st1; repeat split; reflexivity].
    destruct (truthy_opt_str (bgMusicUrl config));
      [|exists st1, st1; repeat split; reflexivity].
    cbn [play_catch bind fst snd].
    eexists; eexists. split; [reflexivity|]. split; [reflexivity|].
    repeat split; reflexivity.
  - eexists; eexists. split; [reflexivity|]. split; [reflexivity|].
    repeat split; reflexivity.
Qed.

(** ** Export loop: the clock over a whole run *)

Lemma last_cons {A : Type} (l : list A) (a d : A) :
  last (a :: l) d = last l a.
Proof.
  revert a d. induction l as [|b l IH]; intros a d; [reflexivity|].
  change (last (a :: b :: l) d) with (last (b :: l) d).
  rewrite (IH b d), (IH b a). reflexivity.
Qed.

(** What a clock event does to the two refs. *)
Lemma clock_step_spec (ctx : option Context2D) (config : VideoConfig)
  (st : PlayerState) (e : ClockEvent) :
  lastTimeRef (clock_step ctx config st e) = clock_time e
  /\ currentTimeRef (clock_step ctx config st e)
     = match e with
       | Tick now => currentTimeRef st + (now - lastTimeRef st) / 1000
       | Restart _ => currentTimeRef st
       end.
Proof.
  destruct e as [now|now]; cbn [clock_step clock_time].
  - destruct (workerTick_clock ctx config now st) as [A B]. split; assumption.
  - split; reflexivity.
Qed.

Lemma clock_run_spec (ctx : option Context2D) (config : VideoConfig)
  (events : list ClockEvent) (st : PlayerState) :
  nondecreasing_from (lastTimeRef st) (map clock_time events) ->
  currentTimeRef st <= currentTimeRef (clock_run ctx config st events)
  /\ lastTimeRef (clock_run ctx config st events)
     = last (map clock_time events) (lastTimeRef st).
Proof.
  unfold clock_run. revert st.
  induction events as [|e events IH]; intros st H; cbn [fold_left map].
  - split; [apply Qle_refl|reflexivity].
  - cbn [map nondecreasing_from] in H. destruct H as [H1 H2].
    destruct (clock_step_spec ctx config st e) as [L C].
    rewrite <- L in H2. destruct (IH _ H2) as [M E].
    rewrite E, L, last_cons. split; [|reflexivity].
    eapply Qle_trans; [|exact M]. rewrite C.
    destruct e as [now|now]; cbn [clock_time] in H1; [|apply Qle_refl].
    assert (X : forall a : Q, a / 1000 == a * (1 # 1000))
      by (intros; reflexivity).
    rewrite X. lra.
Qed.

Lemma nondecreasing_from_app (t : number) (l1 l2 : list number) :
  nondecreasing_from t (l1 ++ l2) ->
  nondecreasing_from t l1 /\ nondecreasing_from (last l1 t) l2.
Proof.
  revert t. induction l1 as [|a l1 IH]; intros t H; cbn [app] in H.
  - split; [exact I|exact H].
  - cbn [nondecreasing_from] in H. destruct H as [H1 H2].
    destruct (IH a H2) as [A B]. rewrite last_cons.
    split; [split; assumption|exact B].
Qed.

(** X16: the accumulator of an export never goes back while the wall clock
    does not.  Over any sequence of ticks and of restarts of the clock
    reference (the one in [startRecording] and the one of the animation
    effect), when the readings of [performance.now()] never go back from
    the recorded reference on, the accumulator after the whole sequence is
    at least what it was after any beginning of it, and the reference ends
    at the last reading. *)
Theorem export_clock_never_goes_back (ctx : option Context2D)
  (config : VideoConfig) (before after : list ClockEvent) (st : PlayerState) :
  nondecreasing_from (lastTimeRef st) (map clock_time (before ++ after)) ->
  currentTimeRef (clock_run ctx config st before)
  <= currentTimeRef (clock_run ctx config st (before ++ after))
  /\ lastTimeRef (clock_run ctx config st (before ++ after))
     = last (map clock_time (before ++ after)) (lastTimeRef st).
Proof.
  intros H. split.
  - rewrite map_app in H. apply nondecreasing_from_app in H.
    destruct H as [H1 H2].
    destruct (clock_run_spec ctx config before st H1) as [_ L].
    rewrite <- L in H2.
    unfold clock_run at 2. rewrite fold_left_app.
    apply (clock_run_spec ctx config after _ H2).
  - apply (clock_run_spec ctx config _ st H).
Qed.

Lemma export_clock_never_goes_back_witness :
  let st := exporting_state 3 in
  let before := [Tick 3033; Restart 3050] in
  let after := [Tick 3070] in
  currentTimeRef (clock_run (Some monospace) hello_world st before)
  <= currentTimeRef (clock_run (Some monospace) hello_world st
                       (before ++ after))
  /\ lastTimeRef (clock_run (Some monospace) hello_world st (before ++ after))
     = 3070.
Proof.
  cbv zeta.
  destruct (export_clock_never_goes_back (Some monospace) hello_world
              [Tick 3033; Restart 3050] [Tick 3070] (exporting_state 3))
    as [A B].
  - cbn. repeat split; vm_compute; discriminate.
  - split; [exact A|]. rewrite B. reflexivity.
Defined.

Lemma export_step_flags (ctx : option Context2D) (config : VideoConfig)
  (st : PlayerState) (e : ExportEvent) :
  isExporting (export_step ctx config st e) = isExporting st
  /\ isPlaying (export_step ctx config st e) = isPlaying st
  /\ (is_recording st = false ->
      is_recording (export_step ctx config st e) = false).
Proof.
  assert (F : forall s, isExporting (finishExport s) = isExporting s
                        /\ isPlaying (finishExport s) = isPlaying s).
  { intros s. unfold finishExport.
    destruct (mediaRecorderRef s) as [[| |]|]; split; reflexivity. }
  destruct e as [now| | |a]; cbn [export_step].
  - rewrite workerTick_isEnded. cbv zeta.
    match goal with |- context [if ?b then _ else _] => destruct b end.
    + destruct (F (setCurrentTime
                     (currentTimeRef st + (now - lastTimeRef st) / 1000)
                     (setCurrentTimeRef
                        (currentTimeRef st + (now - lastTimeRef st) / 1000)
                        (setLastTimeRef now st)))) as [-> ->].
      repeat split. intros _. apply finishExport_stops.
    + repeat split. intros H. exact H.
  - destruct (F st) as [-> ->]. repeat split. intros _.
    apply finishExport_stops.
  - destruct (fallbackTimer st) as [|pending];
      [repeat split; intros H; exact H|].
    destruct (F (setRecorder (mediaRecorderRef st) pending st)) as [-> ->].
    repeat split. intros _. apply finishExport_stops.
  - destruct (audioRef st); repeat split; intros H; exact H.
Qed.

(** X18: the events of the export loop only ever stop the recorder: once it
    is not recording, no sequence of ticks, cancel clicks, timeouts or
    audio progress makes it record again; and they never touch the
    exporting and playing flags, which only the recorder's stop handler
    resets. *)
Theorem export_run_stays_stopped (ctx : option Context2D)
  (config : VideoConfig) (events : list ExportEvent) (st : PlayerState) :
  isExporting (export_run ctx config st events) = isExporting st
  /\ isPlaying (export_run ctx config st events) = isPlaying st
  /\ (is_recording st = false ->
      is_recording (export_run ctx config st events) = false).
Proof.
  unfold export_run. revert st.
  induction events as [|e events IH]; intros st; cbn [fold_left].
  - repeat split. intros H. exact H.
  - destruct (IH (export_step ctx config st e)) as (A & B & C).
    destruct (export_step_flags ctx config st e) as (A' & B' & C').
    rewrite A, B, A', B'. repeat split. intros H. apply C, C', H.
Qed.

(** ** Foreground loop *)

Lemma frameTime_audioRef (config : VideoConfig) (now : number)
  (st : PlayerState) :
  audioRef (frameTime config now st) = audioRef st.
Proof.
  unfold frameTime. destruct (audioRef st) eqn:E; [|exact E].
  destruct (truthy_opt_str (audioUrl config) && isAudioReady st
            && negb (audioError st)); exact E.
Qed.

Lemma frameTime_no_url (config : VideoConfig) (now : number)
  (st : PlayerState) :
  truthy_opt_str (audioUrl config) = false ->
  frameTime config now st = wallClockStep now st.
Proof.
  intros H. unfold frameTime. rewrite H. destruct (audioRef st); reflexivity.
Qed.

(** X19: one frame of the foreground loop.  With a usable primary audio
    (URL set, element present, ready, no error) the time shown and the time
    ref are the audio element's position and the wall clock is not
    consulted.  With an audio URL configured the loop goes on exactly as
    long as the audio has not ended, whatever the time, also when the audio
    failed to load.  Without one the time advances by the wall-clock delta
    and the loop stops exactly when that time has reached a positive
    [maxDuration]. *)
Theorem foreground_frame (ctx : option Context2D) (config : VideoConfig)
  (now : number) (st : PlayerState) :
  (forall a,
     truthy_opt_str (audioUrl config) = true -> audioRef st = Some a ->
     isAudioReady st = true -> audioError st = false ->
     currentTime (fst (animationFrame ctx config now st)) = Audio.currentTime a
     /\ currentTimeRef (fst (animationFrame ctx config now st))
        = Audio.currentTime a
     /\ lastTimeRef (fst (animationFrame ctx config now st)) = lastTimeRef st)
  /\ (truthy_opt_str (audioUrl config) = true ->
      (snd (animationFrame ctx config now st) = true
       <-> match audioRef st with
           | Some a => Audio.ended a = false
           | None => True
           end))
  /\ (truthy_opt_str (audioUrl config) = false ->
      currentTimeRef (fst (animationFrame ctx config now st))
      = currentTimeRef st + (now - lastTimeRef st) / 1000
      /\ (snd (animationFrame ctx config now st) = false
          <-> 0 < maxDuration ctx config (audioDuration st)
              /\ maxDuration ctx config (audioDuration st)
                 <= currentTimeRef st + (now - lastTimeRef st) / 1000)).
Proof.
  split; [|split].
  - intros a Hurl Ha Hready Herr. unfold animationFrame. cbv zeta.
    rewrite frameTime_audioRef, Ha, Hurl.
    assert (E : frameTime config now st
                = setCurrentTime (Audio.currentTime a)
                    (setCurrentTimeRef (Audio.currentTime a) st)).
    { unfold frameTime. rewrite Ha, Hurl, Hready, Herr. reflexivity. }
    rewrite E. cbn [andb negb]. rewrite andb_false_r.
    destruct (Audio.ended a); repeat split; reflexivity.
  - intros Hurl. unfold animationFrame. cbv zeta.
    rewrite frameTime_audioRef, Hurl. cbn [andb negb]. rewrite andb_false_r.
    destruct (audioRef st) as [a|].
    + destruct (Audio.ended a); cbn [snd]; split; intros H;
        try reflexivity; discriminate H.
    + cbn [snd]. split; intros; [exact I|reflexivity].
  - intros Hurl. unfold animationFrame. cbv zeta.
    rewrite (frameTime_no_url _ _ _ Hurl), Hurl. cbn [andb negb].
    rewrite andb_true_r.
    change (currentTimeRef (wallClockStep now st))
      with (currentTimeRef st + (now - lastTimeRef st) / 1000).
    destruct (gtb (maxDuration ctx config (audioDuration st)) 0) eqn:Eg;
      destruct (geb (currentTimeRef st + (now - lastTimeRef st) / 1000)
                    (maxDuration ctx config (audioDuration st))) eqn:Ee;
      cbn [andb fst snd]; (split; [reflexivity|]).
    + split; [intros _|reflexivity].
      split; [apply gtb_true; exact Eg|apply geb_true; exact Ee].
    + split; [discriminate|]. intros [_ H]. apply geb_true in H. congruence.
    + split; [discriminate|]. intros [H _]. apply gtb_true in H. congruence.
    + split; [discriminate|]. intros [H _]. apply gtb_true in H. congruence.
Qed.

Lemma foreground_frame_witness :
  currentTime (fst (animationFrame (Some monospace)
                      (with_audio (Some voice_url) hello_world) 999
                      (setAudio (Some (Audio.seek fresh_audio 4))
                                playing_state))) = 4
  /\ snd (animationFrame (Some monospace)
            (with_audio (Some voice_url) hello_world) 999
            (setAudio (Some (Audio.seek fresh_audio 4)) playing_state)) = true
  /\ snd (animationFrame (Some monospace) hello_world 28000 playing_state)
     = false.
Proof.
  destruct (foreground_frame (Some monospace)
              (with_audio (Some voice_url) hello_world) 999
              (setAudio (Some (Audio.seek fresh_audio 4)) playing_state))
    as (A & B & _).
  destruct (foreground_frame (Some monospace) hello_world 28000 playing_state)
    as (_ & _ & C).
  split; [|split].
  - apply (A (Audio.seek fresh_audio 4)); reflexivity.
  - apply B; reflexivity.
  - apply (C eq_refl). split; vm_compute; [reflexivity|discriminate].
Defined.

(** ** Export life cycle *)


(** X21: when the [MediaRecorder] cannot be constructed, [startRecording]
    rolls the flags back and tells the user: the exporting and playing
    flags are false, one alert is shown, no recorder is installed and no
    fallback timeout is set; but an audio element whose [play()] was
    fulfilled is left playing. *)
Theorem export_aborts_without_recorder (config : VideoConfig) (now : number)
  (playBg : PlayResult) (st : PlayerState) (a : Audio.Element) :
  audioRef st = Some a ->
  truthy_opt_str (audioUrl config) = true ->
  audioError st = false ->
  exists st',
    startRecording config now Fulfilled playBg true false st
    = Normal (st', [str "Recording failed. Try Chrome or Edge."])
    /\ isExporting st' = false
    /\ isPlaying st' = false
    /\ mediaRecorderRef st' = mediaRecorderRef st
    /\ fallbackTimer st' = fallbackTimer st
    /\ audioRef st' = Some (Audio.play a).
Proof.
  intros Ha Hurl Herr. unfold startRecording, startRecordingWith.
  rewrite Ha, Hurl, Herr. cbn [andb negb play_catch bind fst snd].
  set (s1 := setAudio (Some (Audio.play a)) st).
  assert (H2 : exists s2,
    match bgMusicRef s1 with
    | Some b =>
        if truthy_opt_str (bgMusicUrl config)
        then r <- play_catch playBg b (Some (fun _ st => st)) s1 ;;
             Normal (setBgMusic (Some (fst r)) (snd r))
        else Normal s1
    | None => Normal s1
    end = Normal s2
    /\ mediaRecorderRef s2 = mediaRecorderRef st
    /\ fallbackTimer s2 = fallbackTimer st
    /\ audioRef s2 = Some (Audio.play a)).
  { destruct (bgMusicRef s1) as [b|];
      [|eexists; split; [reflexivity|repeat split; reflexivity]].
    destruct (truthy_opt_str (bgMusicUrl config));
      [|eexists; split; [reflexivity|repeat split; reflexivity]].
    destruct playBg; cbn [play_catch bind fst snd];
      eexists; (split; [reflexivity|repeat split; reflexivity]). }
  destruct H2 as (s2 & -> & R2 & F2 & A2). cbn [bind].
  eexists. split; [reflexivity|]. cbn. rewrite R2, F2, A2.
  repeat split; reflexivity.
Qed.

Lemma export_aborts_without_recorder_witness :
  exists st',
    startRecording (with_audio (Some voice_url) hello_world) 600
      Fulfilled Fulfilled true false (handleExport playing_state)
    = Normal (st', [str "Recording failed. Try Chrome or Edge."])
    /\ isExporting st' = false
    /\ isPlaying st' = false
    /\ mediaRecorderRef st' = mediaRecorderRef (handleExport playing_state)
    /\ fallbackTimer st' = fallbackTimer (handleExport playing_state)
    /\ audioRef st' = Some (Audio.play (rewind fresh_audio)).
Proof.
  apply export_aborts_without_recorder; reflexivity.
Defined.

(** X22: [handleExport] starts an export once: from a state that is not
    exporting it sets the exporting flag, puts the time and the accumulator
    at 0 and leaves both audio elements paused at position 0; called again
    it changes nothing; and while the flag is set the effect that copies
    the time state into the accumulator does nothing, so only ticks move
    the accumulator.  When the recorder's stop handler has run and that
    effect after it, the player is idle at time 0 again. *)
Theorem export_start_and_stop (st : PlayerState) :
  isExporting st = false ->
  let s1 := handleExport st in
  isExporting s1 = true
  /\ currentTime s1 = 0 /\ currentTimeRef s1 = 0
  /\ audioRef s1 = option_map rewind (audioRef st)
  /\ bgMusicRef s1 = option_map rewind (bgMusicRef st)
  /\ handleExport s1 = s1
  /\ syncRefEffect s1 = s1
  /\ (forall s2, let s3 := syncRefEffect (recorderOnStop s2) in
        isExporting s3 = false /\ isPlaying s3 = false
        /\ currentTime s3 = 0 /\ currentTimeRef s3 = 0
        /\ audioRef s3 = option_map rewind (audioRef s2)
        /\ bgMusicRef s3 = option_map rewind (bgMusicRef s2)).
Proof.
  intros Hexp. cbv zeta.
  assert (E : handleExport st
              = setBgMusic (option_map rewind (bgMusicRef st))
                  (setAudio (option_map rewind (audioRef st))
                     (setCurrentTimeRef 0
                        (setCurrentTime 0 (setIsExporting true st))))).
  { unfold handleExport. rewrite Hexp. reflexivity. }
  rewrite E.
  split; [reflexivity|]. split; [reflexivity|]. split; [reflexivity|].
  split; [reflexivity|]. split; [reflexivity|]. split; [reflexivity|].
  split; [reflexivity|].
  intros s2. unfold syncRefEffect, recorderOnStop. cbn.
  repeat split; reflexivity.
Qed.

Lemma export_start_and_stop_witness :
  isExporting (handleExport playing_state) = true
  /\ currentTimeRef (handleExport playing_state) = 0
  /\ option_map Audio.paused (audioRef (handleExport playing_state))
     = Some true.
Proof.
  destruct (export_start_and_stop playing_state eq_refl)
    as (A & _ & B & C & _).
  rewrite A, B, C. repeat split; reflexivity.
Defined.

(** ** Container negotiation *)

Lemma find_first {A : Type} (f : A -> bool) (l : list A) (x : A) :
  find f l = Some x ->
  exists before after,
    l = before ++ x :: after /\ forallb (fun y => negb (f y)) before = true.
Proof.
  induction l as [|a l IH]; intros H; [discriminate H|].
  cbn [find] in H. destruct (f a) eqn:E.
  - injection H as <-. exists [], l. split; reflexivity.
  - destruct (IH H) as (before & after & -> & Hb).
    exists (a :: before), after. split; [reflexivity|].
    cbn [forallb]. rewrite E, Hb. reflexivity.
Qed.

(** X23: [getSupportedMimeType] returns the first candidate of the
    preference list that the recorder supports: the result is supported and
    every candidate before it is not.  When no candidate is supported it
    still returns a type, the last candidate [video/webm], supported or
    not. *)
Theorem mime_type_is_first_supported (isTypeSupported : jsstring -> bool) :
  In (getSupportedMimeType isTypeSupported) mimeCandidates
  /\ (existsb isTypeSupported mimeCandidates = true ->
      isTypeSupported (getSupportedMimeType isTypeSupported) = true
      /\ exists before after,
           mimeCandidates
           = before ++ getSupportedMimeType isTypeSupported :: after
           /\ forallb (fun t => negb (isTypeSupported t)) before = true)
  /\ (existsb isTypeSupported mimeCandidates = false ->
      getSupportedMimeType isTypeSupported = str "video/webm").
Proof.
  unfold getSupportedMimeType.
  destruct (find isTypeSupported mimeCandidates) as [t|] eqn:E.
  - apply find_some in E as Hs. destruct Hs as [Hin Hsup].
    split; [exact Hin|]. split.
    + intros _. split; [exact Hsup|]. apply find_first. exact E.
    + intros Hnone. exfalso.
      assert (Hex : existsb isTypeSupported mimeCandidates = true).
      { apply existsb_exists. exists t. split; assumption. }
      congruence.
  - split; [right; right; right; right; left; reflexivity|]. split.
    + intros Hex. apply existsb_exists in Hex. destruct Hex as (t & Hin & Ht).
      pose proof (find_none _ _ E t Hin). congruence.
    + reflexivity.
Qed.

Lemma mime_type_is_first_supported_witness :
  getSupportedMimeType (eqb (str "video/webm;codecs=vp9,opus"))
  = str "video/webm;codecs=vp9,opus"
  /\ getSupportedMimeType (fun _ => false) = str "video/webm".
Proof.
  destruct (mime_type_is_first_supported
              (eqb (str "video/webm;codecs=vp9,opus"))) as (_ & A & _).
  destruct (mime_type_is_first_supported (fun _ => false)) as (_ & _ & B).
  split; [|apply B; reflexivity].
  destruct (A eq_refl) as [H _]. apply eqb_eq in H. symmetry. exact H.
Defined.

(** X24: the download is named base, dot, extension.  The extension is
    [mp4] when the recorder supports one of the two MP4 candidates and
    [webm] otherwise.  The base is [rakib] when the configured file name is
    missing, and also when it is empty or made of white space only; in
    every other case it is the configured name as typed, neither trimmed
    nor changed. *)
Theorem download_name_spec (isTypeSupported : jsstring -> bool)
  (exportFileName : option jsstring) :
  let ext := if isTypeSupported (nth 0 mimeCandidates [])
                || isTypeSupported (nth 1 mimeCandidates [])
             then str "mp4" else str "webm" in
  let name := downloadName exportFileName
                (getSupportedMimeType isTypeSupported) in
  (exportFileName = None -> name = str "rakib" ++ str "." ++ ext)
  /\ (forall n, exportFileName = Some n -> trim n = [] ->
        name = str "rakib" ++ str "." ++ ext)
  /\ (forall n, exportFileName = Some n -> trim n <> [] ->
        name = n ++ str "." ++ ext).
Proof.
  cbv zeta. unfold downloadName.
  assert (E : extension (getSupportedMimeType isTypeSupported)
              = if isTypeSupported (nth 0 mimeCandidates [])
                   || isTypeSupported (nth 1 mimeCandidates [])
                then str "mp4" else str "webm").
  { unfold getSupportedMimeType, mimeCandidates. cbn [find nth].
    repeat match goal with
           | |- context [isTypeSupported ?t] =>
               destruct (isTypeSupported t); cbn [orb]; try reflexivity
           end. }
  rewrite E. split; [|split].
  - intros ->. reflexivity.
  - intros n -> Hn. unfold baseName. rewrite Hn.
    cbn [eqb negb]. rewrite andb_false_r. reflexivity.
  - intros n -> Hn. unfold baseName.
    destruct n as [|c n]; [exfalso; apply Hn; reflexivity|].
    cbn [truthy_str andb].
    destruct (eqb (trim (c :: n)) []) eqn:B; [|reflexivity].
    apply eqb_eq in B. contradiction.
Qed.

(** ** Dragging *)

(** X25: no overlay moves without a hit: from rest, a press that hits
    neither the logo, nor the watermark image, nor the watermark text
    leaves the drag state as it was, and no movement after it calls
    [onChange]; the same holds for every movement after the mouse button
    was released or the pointer left the canvas. *)
Theorem no_drag_without_hit (config : VideoConfig) (ov ov' : Overlays)
  (canvas canvas' : option Rect) (ctx : option Context2D)
  (logoImage watermarkImage : option Image) (press move : MouseEvent)
  (onChange : bool) (ds : DragState) :
  (forall rect, canvas = Some rect ->
     logoHit ov logoImage (canvasPoint config rect press) = false
     /\ watermarkHit ov watermarkImage (canvasPoint config rect press) = false
     /\ textHit ov ctx (canvasPoint config rect press) = false) ->
  handleMouseDown config ov canvas ctx logoImage watermarkImage press ds = ds
  /\ (isDraggingRef ds = false ->
      handleMouseMove config ov' onChange canvas'
        move (handleMouseDown config ov canvas ctx logoImage watermarkImage
                press ds) = None)
  /\ handleMouseMove config ov' onChange canvas' move (handleMouseUp ds)
     = None.
Proof.
  intros Hmiss.
  assert (E : handleMouseDown config ov canvas ctx logoImage watermarkImage
                press ds = ds).
  { unfold handleMouseDown. destruct canvas as [rect|]; [|reflexivity].
    destruct (Hmiss rect eq_refl) as (-> & -> & ->).
    destruct (hasSize rect); reflexivity. }
  rewrite E. split; [reflexivity|]. split.
  - intros Hrest. unfold handleMouseMove. rewrite Hrest.
    destruct canvas'; reflexivity.
  - unfold handleMouseMove. destruct canvas'; reflexivity.
Qed.

Lemma no_drag_without_hit_witness :
  handleMouseMove hello_world sample_overlays true (Some natural_rect)
    {| clientX := 50; clientY := 60 |}
    (handleMouseDown hello_world sample_overlays (Some natural_rect)
       (Some monospace) (Some sample_image) (Some sample_image)
       {| clientX := 10; clientY := 10 |} at_rest) = None.
Proof.
  destruct (no_drag_without_hit hello_world sample_overlays sample_overlays
           (Some natural_rect) (Some natural_rect) (Some monospace)
           (Some sample_image) (Some sample_image)
           {| clientX := 10; clientY := 10 |} {| clientX := 50; clientY := 60 |}
           true at_rest) as (_ & H & _).
  - intros rect H. injection H as <-. repeat split; reflexivity.
  - apply H. reflexivity.
Defined.

(** X26: dragging the logo over a canvas box that has a size.  After a
    press inside the logo's box, each movement over the same canvas box
    calls [onChange] with the logo moved by the displacement of the mouse
    position, in canvas pixels, since the press, and with every other
    overlay field as it is in the current configuration; the logo wins
    over a watermark under the same point; and a movement back to the
    point of the press gives the logo's original position. *)
Theorem logo_drag_follows_pointer (config : VideoConfig) (ov ov' : Overlays)
  (rect : Rect) (ctx : option Context2D)
  (logoImage watermarkImage : option Image) (press move : MouseEvent)
  (ds : DragState) :
  hasSize rect = true ->
  logoHit ov logoImage (canvasPoint config rect press) = true ->
  let ds' := handleMouseDown config ov (Some rect) ctx logoImage
               watermarkImage press ds in
  draggingTargetRef ds' = Some TargetLogo
  /\ (exists ov'',
        handleMouseMove config ov' true (Some rect) move ds'
        = Some (MovedTo ov'')
        /\ logoX ov''
           = logoX ov + (fst (canvasPoint config rect move)
                         - fst (canvasPoint config rect press))
        /\ logoY ov''
           = logoY ov + (snd (canvasPoint config rect move)
                         - snd (canvasPoint config rect press))
        /\ moveLogo ov'' (logoX ov') (logoY ov') = ov')
  /\ (exists ov'',
        handleMouseMove config ov' true (Some rect) press ds'
        = Some (MovedTo ov'')
        /\ logoX ov'' == logoX ov /\ logoY ov'' == logoY ov).
Proof.
  intros Hsize Hhit. cbv zeta. unfold handleMouseDown, handleMouseMove.
  rewrite Hsize, Hhit. cbn [negb].
  cbn [startDrag isDraggingRef draggingTargetRef dragStartRef initialPosRef
       negb orb fst snd].
  split; [reflexivity|]. split.
  - eexists. split; [reflexivity|]. cbn [logoX logoY moveLogo].
    split; [reflexivity|]. split; [reflexivity|]. destruct ov'; reflexivity.
  - eexists. split; [reflexivity|]. cbn [logoX logoY moveLogo].
    split; ring.
Qed.

Lemma logo_drag_follows_pointer_witness :
  exists ov'',
    handleMouseMove hello_world sample_overlays true (Some natural_rect)
      {| clientX := 170; clientY := 140 |}
      (handleMouseDown hello_world sample_overlays (Some natural_rect)
         (Some monospace) (Some sample_image) (Some sample_image)
         {| clientX := 150; clientY := 150 |} at_rest) = Some (MovedTo ov'')
    /\ logoX ov'' == 120 /\ logoY ov'' == 90
    /\ watermarkX ov'' = 100.
Proof.
  destruct (logo_drag_follows_pointer hello_world sample_overlays
              sample_overlays natural_rect (Some monospace)
              (Some sample_image) (Some sample_image)
              {| clientX := 150; clientY := 150 |}
              {| clientX := 170; clientY := 140 |} at_rest eq_refl eq_refl)
    as (_ & (ov'' & Hm & Hx & Hy & Hrest) & _).
  exists ov''. split; [exact Hm|]. split; [|split].
  - rewrite Hx. reflexivity.
  - rewrite Hy. reflexivity.
  - change (watermarkX ov'')
      with (watermarkX (moveLogo ov'' (logoX sample_overlays)
                          (logoY sample_overlays))).
    rewrite Hrest. reflexivity.
Defined.

(** ** Project list *)

Lemma eqb_refl (a : jsstring) : eqb a a = true.
Proof.
  induction a as [|x a IH]; [reflexivity|].
  cbn [eqb]. rewrite N.eqb_refl, IH. reflexivity.
Qed.

Lemma eqb_neq (a b : jsstring) : eqb a b = false <-> a <> b.
Proof.
  split.
  - intros H ->. rewrite eqb_refl in H. discriminate H.
  - intros H. destruct (eqb a b) eqn:E; [|reflexivity].
    apply eqb_eq in E. contradiction.
Qed.

Lemma filter_ids_incl (f : App.Project -> bool) (l : list App.Project)
  (x : jsstring) :
  In x (map App.id (filter f l)) -> In x (map App.id l).
Proof.
  intros H. apply in_map_iff in H. destruct H as (p & <- & Hp).
  apply filter_In in Hp. apply in_map. exact (proj1 Hp).
Qed.

Lemma filter_ids_NoDup (f : App.Project -> bool) (l : list App.Project) :
  NoDup (map App.id l) -> NoDup (map App.id (filter f l)).
Proof.
  induction l as [|a l IH]; intros H; [constructor|].
  cbn [map] in H. inversion H as [|x xs Hnot Hnd]; subst.
  cbn [filter]. destruct (f a); [|exact (IH Hnd)].
  cbn [map]. constructor; [|exact (IH Hnd)].
  intros Hin. apply Hnot. exact (filter_ids_incl _ _ _ Hin).
Qed.

(** X27: deleting a project from a list whose ids are all different never
    fails and never empties the list: the result is a non-empty sub-list
    with all ids still different, the project with the given id is gone
    unless it was the only project, and the active id refers to a project
    of the result whenever it referred to one before (the first remaining
    project when the active one was deleted). *)
Theorem delete_keeps_a_project (pid : jsstring) (st : App.State) :
  App.projects st <> [] ->
  NoDup (App.ids st) ->
  In (App.activeProjectId st) (App.ids st) ->
  exists st',
    App.handleDeleteProject pid st = Normal st'
    /\ App.projects st' <> []
    /\ NoDup (App.ids st')
    /\ In (App.activeProjectId st') (App.ids st')
    /\ (forall p, In p (App.projects st') -> In p (App.projects st))
    /\ ((2 <= List.length (App.projects st))%nat -> ~ In pid (App.ids st'))
    /\ (App.activeProjectId st <> pid ->
        App.activeProjectId st' = App.activeProjectId st).
Proof.
  intros Hne Hnd Hact. unfold App.handleDeleteProject.
  destruct (Nat.leb (List.length (App.projects st)) 1) eqn:Elen.
  - exists st. split; [reflexivity|]. repeat split; try assumption.
    + intros p H. exact H.
    + apply Nat.leb_le in Elen. intros H. lia.
  - apply Nat.leb_gt in Elen.
    set (kept := filter (fun p => negb (eqb (App.id p) pid)) (App.projects st)).
    assert (Hsub : forall p, In p kept -> In p (App.projects st)).
    { intros p H. apply filter_In in H. exact (proj1 H). }
    assert (Hgone : ~ In pid (map App.id kept)).
    { intros H. apply in_map_iff in H. destruct H as (p & E & Hp).
      apply filter_In in Hp. destruct Hp as [_ Hp].
      rewrite E, eqb_refl in Hp. discriminate Hp. }
    assert (Hkept : kept <> []).
    { unfold App.ids in Hnd.
      destruct (App.projects st) as [|a [|b l]] eqn:Ep;
        cbn [List.length] in Elen; try lia.
      cbn [map] in Hnd. inversion Hnd as [|x xs Hnot _]; subst.
      unfold kept. cbn [filter].
      destruct (eqb (App.id a) pid) eqn:Ea; cbn [negb]; [|discriminate].
      destruct (eqb (App.id b) pid) eqn:Eb; cbn [negb]; [|discriminate].
      apply eqb_eq in Ea, Eb. exfalso. apply Hnot. left. congruence. }
    assert (Hnd' : NoDup (map App.id kept)).
    { apply filter_ids_NoDup. exact Hnd. }
    destruct (eqb (App.activeProjectId st) pid) eqn:Eact.
    + destruct kept as [|p kept'] eqn:Ek; [contradiction|].
      eexists. split; [reflexivity|]. unfold App.ids.
      cbn [App.projects App.activeProjectId].
      split; [discriminate|]. split; [exact Hnd'|].
      split; [left; reflexivity|]. split; [exact Hsub|].
      split; [intros _; exact Hgone|].
      intros H. apply eqb_eq in Eact. contradiction.
    + eexists. split; [reflexivity|]. unfold App.ids.
      cbn [App.projects App.activeProjectId].
      split; [exact Hkept|]. split; [exact Hnd'|]. split.
      * unfold App.ids in Hact. apply in_map_iff in Hact.
        destruct Hact as (p & E & Hp). apply in_map_iff. exists p.
        split; [exact E|]. apply filter_In. split; [exact Hp|].
        rewrite E, Eact. reflexivity.
      * split; [exact Hsub|]. split; [intros _; exact Hgone|].
        intros _. reflexivity.
Qed.

Lemma delete_keeps_a_project_witness :
  exists st',
    App.handleDeleteProject (str "proj-17") App.two_projects = Normal st'
    /\ App.ids st' = [str "default-1"]
    /\ App.activeProjectId st' = str "default-1".
Proof.
  destruct (delete_keeps_a_project (str "proj-17") App.two_projects)
    as (st' & E & _).
  - discriminate.
  - unfold App.ids. cbn. repeat constructor; cbn; intuition discriminate.
  - right. left. reflexivity.
  - exists st'. split; [exact E|].
    cbn in E. injection E as <-. split; reflexivity.
Defined.

Lemma find_map_same_id (pid : jsstring) (h : App.Project -> App.Project)
  (l : list App.Project) :
  (forall p, App.id (h p) = App.id p) ->
  find (fun p => eqb (App.id p) pid) (map h l)
  = option_map h (find (fun p => eqb (App.id p) pid) l).
Proof.
  intros Hid. induction l as [|a l IH]; [reflexivity|].
  cbn [map find]. rewrite Hid. destruct (eqb (App.id a) pid); [reflexivity|].
  exact IH.
Qed.

(** X28: an edit reaches the project on screen and only that one: when the
    active id is the id of a project, after [updateConfig c] the active
    project is the same project with configuration [c]; ids, names and
    order of the list are unchanged, and every project with another id is
    exactly as before. *)
Theorem update_reaches_active_project (c : VideoConfig) (st : App.State) :
  In (App.activeProjectId st) (App.ids st) ->
  exists p,
    App.activeProject st = Some p
    /\ App.activeProject (App.updateConfig c st) = Some (App.withConfig p c)
    /\ App.ids (App.updateConfig c st) = App.ids st
    /\ map App.name (App.projects (App.updateConfig c st))
       = map App.name (App.projects st)
    /\ Forall2 (fun q q' => App.id q <> App.activeProjectId st -> q' = q)
         (App.projects st) (App.projects (App.updateConfig c st)).
Proof.
  intros Hact. unfold App.ids in Hact.
  set (pid := App.activeProjectId st) in *.
  set (h := fun p => if eqb (App.id p) pid then App.withConfig p c else p).
  assert (Hid : forall p, App.id (h p) = App.id p).
  { intros p. unfold h. destruct (eqb (App.id p) pid); reflexivity. }
  assert (Hname : forall p, App.name (h p) = App.name p).
  { intros p. unfold h. destruct (eqb (App.id p) pid); reflexivity. }
  assert (Hfind : exists p,
            find (fun p => eqb (App.id p) pid) (App.projects st) = Some p).
  { apply in_map_iff in Hact. destruct Hact as (q & E & Hq).
    destruct (find (fun p => eqb (App.id p) pid) (App.projects st)) eqn:F;
      [eexists; reflexivity|].
    pose proof (find_none _ _ F q Hq) as Hn. cbn beta in Hn.
    rewrite E, eqb_refl in Hn. discriminate Hn. }
  destruct Hfind as (p & Hp). exists p.
  apply find_some in Hp as Hp'. destruct Hp' as [_ Hpid].
  unfold App.activeProject, App.updateConfig, App.updateProjectConfig, App.ids.
  cbn [App.projects App.activeProjectId]. fold pid. fold h.
  rewrite (find_map_same_id pid h _ Hid), Hp. cbn [option_map].
  split; [reflexivity|]. split; [unfold h; rewrite Hpid; reflexivity|].
  split; [|split].
  - rewrite map_map. apply map_ext. exact Hid.
  - rewrite map_map. apply map_ext. exact Hname.
  - clear Hact Hp. induction (App.projects st) as [|q l IH]; cbn [map];
      constructor.
    + intros Hq. unfold h. apply eqb_neq in Hq. rewrite Hq. reflexivity.
    + exact IH.
Qed.

Lemma update_reaches_active_project_witness :
  option_map App.config
    (App.activeProject (App.updateConfig hello_world App.two_projects))
  = Some hello_world.
Proof.
  destruct (update_reaches_active_project hello_world App.two_projects)
    as (p & _ & E & _).
  - right. left. reflexivity.
  - rewrite E. reflexivity.
Defined.

Lemma find_app_last {A : Type} (f : A -> bool) (l : list A) (x : A) :
  (forall y, In y l -> f y = false) -> f x = true ->
  find f (l ++ [x]) = Some x.
Proof.
  intros Hl Hx. induction l as [|a l IH]; cbn [app find].
  - rewrite Hx. reflexivity.
  - rewrite (Hl a (or_introl eq_refl)). apply IH.
    intros y Hy. apply Hl. right. exact Hy.
Qed.

(** X29: a new project is added at the end of the list with the initial
    configuration and the name [Project] followed by the new length of the
    list, the projects that were there are untouched, and, provided its id
    (made from the clock) is not already taken, it is the active project
    afterwards. *)
Theorem create_adds_active_project (INITIAL_CONFIG : VideoConfig)
  (nowId nowCreated : N) (st : App.State) :
  ~ In (str "proj-" ++ App.decimal nowId) (App.ids st) ->
  let st' := App.handleCreateProject INITIAL_CONFIG nowId nowCreated st in
  exists p,
    App.projects st' = App.projects st ++ [p]
    /\ App.activeProject st' = Some p
    /\ App.id p = str "proj-" ++ App.decimal nowId
    /\ App.config p = INITIAL_CONFIG
    /\ App.name p
       = str "Project "
         ++ App.decimal (N.of_nat (List.length (App.projects st')))
    /\ ~ In (App.id p) (App.ids st).
Proof.
  intros Hfresh. cbv zeta. unfold App.handleCreateProject.
  eexists. split; [reflexivity|].
  cbn [App.projects App.activeProjectId App.id App.config App.name].
  split; [|split; [reflexivity|split; [reflexivity|split]]].
  - unfold App.activeProject. cbn [App.projects App.activeProjectId].
    rewrite find_app_last; [reflexivity| |apply eqb_refl].
    intros y Hy. cbn beta. apply eqb_neq. intros E. apply Hfresh.
    unfold App.ids. apply in_map_iff. exists y. split; assumption.
  - rewrite length_app. reflexivity.
  - exact Hfresh.
Qed.

Lemma create_adds_active_project_witness :
  let st' := App.handleCreateProject hello_world 1700000000000 1700000000001
               App.two_projects in
  option_map App.name (App.activeProject st') = Some (str "Project 3")
  /\ App.activeProjectId st' = str "proj-1700000000000".
Proof.
  cbv zeta.
  destruct (create_adds_active_project hello_world 1700000000000
              1700000000001 App.two_projects) as (p & _ & E & _ & _ & N & _).
  - unfold App.ids. cbn. intuition discriminate.
  - rewrite E. cbn [option_map]. rewrite N. split; reflexivity.
Defined.

(** ** Audio engine set-up *)

(** X30: the set-up effect only ever makes connections of the intended
    graph.  Starting from refs and connections that are in order (only
    connections among the eight of [wired], existing monitor gains
    connected to the speakers; in particular from nothing at all), they are
    in order after it, whatever the configuration and whichever elements
    and sources are available; so the capture destination is only fed by
    the main and background gains and the speakers only by the two monitor
    gains, whose muting therefore cannot reach the recording.  The effect
    creates no media element source for an element that already has one.
    And run with both tracks configured, both elements mounted and sources
    that can be created, it leaves exactly the eight connections. *)
Theorem setup_wires_intended_graph (config : VideoConfig)
  (mainAudio bgMusic createMain createBg : bool)
  (g : AudioGraph) (r : Routing) :
  graph_ok g r ->
  let g' := fst (audioSetupEffect config mainAudio bgMusic createMain
                   createBg g r) in
  let r' := snd (audioSetupEffect config mainAudio bgMusic createMain
                   createBg g r) in
  graph_ok g' r'
  /\ (sourceNodeRef r = true ->
      sourceNodeRef r' = true
      /\ mainSourcesCreated r' = mainSourcesCreated r)
  /\ (bgMusicSourceNodeRef r = true ->
      bgMusicSourceNodeRef r' = true
      /\ bgSourcesCreated r' = bgSourcesCreated r)
  /\ (truthy_opt_str (audioUrl config) = true ->
      truthy_opt_str (bgMusicUrl config) = true ->
      mainAudio = true -> bgMusic = true ->
      createMain = true -> createBg = true ->
      forall a b, edges r' a b = wired a b).
Proof.
  intros (Hlegal & Hmon & Hbg). cbv zeta. unfold audioSetupEffect.
  cbn [fst snd edges sourceNodeRef bgMusicSourceNodeRef mainSourcesCreated
       bgSourcesCreated monitorGainNodeRef bgMusicMonitorGainNodeRef].
  assert (Hmon' : forall n, monitorGainNodeRef g = Some n ->
                    edges r MonitorGain DeviceOut = true).
  { intros n E. apply Hmon. rewrite E. discriminate. }
  assert (Hbg' : forall n, bgMusicMonitorGainNodeRef g = Some n ->
                   edges r BgMonitorGain DeviceOut = true).
  { intros n E. apply Hbg. rewrite E. discriminate. }
  clear Hmon Hbg.
  split; [|split; [|split]].
  - split; [|split].
    + intros a b. specialize (Hlegal a b).
      destruct (truthy_opt_str (audioUrl config)),
               (truthy_opt_str (bgMusicUrl config)),
               mainAudio, bgMusic, createMain, createBg,
               (sourceNodeRef r), (bgMusicSourceNodeRef r),
               (monitorGainNodeRef g), (bgMusicMonitorGainNodeRef g);
        cbn [andb orb negb]; unfold connect, disconnect;
        destruct a, b; cbn [node_eqb andb orb negb wired];
        try reflexivity; try exact Hlegal; try discriminate.
    + intros _.
      destruct (monitorGainNodeRef g) as [n|] eqn:Em;
        [specialize (Hmon' n eq_refl)|clear Hmon'];
        destruct (truthy_opt_str (audioUrl config) && mainAudio
                  && (sourceNodeRef r
                      || truthy_opt_str (audioUrl config) && mainAudio
                         && negb (sourceNodeRef r) && createMain)),
                 (truthy_opt_str (bgMusicUrl config) && bgMusic),
                 (bgMusicSourceNodeRef r), createBg,
                 (bgMusicMonitorGainNodeRef g);
        cbn [andb orb negb]; unfold connect, disconnect;
        cbn [node_eqb andb orb negb]; try reflexivity; exact Hmon'.
    + destruct (truthy_opt_str (bgMusicUrl config) && bgMusic) eqn:Eroute.
      * intros _.
        destruct (bgMusicMonitorGainNodeRef g) as [n|] eqn:Eb;
          [specialize (Hbg' n eq_refl)|clear Hbg'];
          destruct (bgMusicSourceNodeRef r), createBg;
          cbn [andb orb negb]; unfold connect, disconnect;
          cbn [node_eqb andb orb negb]; try reflexivity;
          destruct (truthy_opt_str (audioUrl config) && mainAudio
                    && (sourceNodeRef r
                        || truthy_opt_str (audioUrl config) && mainAudio
                           && negb (sourceNodeRef r) && createMain)),
                   (monitorGainNodeRef g);
          cbn [node_eqb andb orb negb]; try reflexivity; exact Hbg'.
      * intros Hsome. cbn [andb].
        destruct (bgMusicMonitorGainNodeRef g) as [n|] eqn:Eb;
          [|exfalso; apply Hsome; reflexivity].
        specialize (Hbg' n eq_refl).
        destruct (truthy_opt_str (audioUrl config) && mainAudio
                  && (sourceNodeRef r
                      || truthy_opt_str (audioUrl config) && mainAudio
                         && negb (sourceNodeRef r) && createMain)),
                 (monitorGainNodeRef g);
          unfold connect, disconnect;
          cbn [node_eqb andb orb negb]; exact Hbg'.
  - intros Hs. rewrite Hs. cbn [orb negb]. rewrite !andb_false_r.
    split; reflexivity.
  - intros Hs. rewrite Hs. cbn [orb negb]. rewrite !andb_false_r.
    split; reflexivity.
  - intros -> -> -> -> -> -> a b. cbn [andb]. rewrite !andb_true_r.
    rewrite !orb_negb_r. specialize (Hlegal a b).
    destruct (monitorGainNodeRef g) as [n|] eqn:Em;
      [specialize (Hmon' n eq_refl)|clear Hmon'];
      (destruct (bgMusicMonitorGainNodeRef g) as [m|] eqn:Eb;
        [specialize (Hbg' m eq_refl)|clear Hbg']);
      unfold connect, disconnect;
      destruct a, b; cbn [node_eqb andb orb negb wired];
      try reflexivity; try assumption;
      destruct (edges r _ _); try reflexivity;
      (symmetry; apply Hlegal; reflexivity).
Qed.

Lemma setup_wires_intended_graph_witness :
  forallb (fun a =>
     forallb (fun b =>
        Bool.eqb
          (edges (snd (audioSetupEffect both_tracks true true true true
                         no_graph no_routing)) a b)
          (wired a b)) all_nodes) all_nodes = true.
Proof.
  destruct (setup_wires_intended_graph both_tracks true true true true
              no_graph no_routing) as (_ & _ & _ & H).
  - split; [intros a b H; discriminate H|].
    split; intros H; exfalso; apply H; reflexivity.
  - apply forallb_forall. intros a _. apply forallb_forall. intros b _.
    rewrite H by reflexivity. apply eqb_reflx.
Defined.

(** ** Text layout: blank lines *)

Lemma count_blank_snoc (ls : list Line) (l : Line) :
  List.length (filter no_segments (ls ++ [l]))
  = (List.length (filter no_segments ls)
     + if no_segments l then 1 else 0)%nat.
Proof.
  rewrite filter_app, length_app. cbn [filter].
  destruct (no_segments l); reflexivity.
Qed.

(** With tokens no wider than [mw], the wrapping loop never pushes a line
    without segments: a break is only taken from a running line that has
    something in it. *)
Lemma wrap_fold_blank (mw : number) (segs : list Segment) (w : Wrap) :
  Forall (fun seg => width seg <= mw) segs ->
  (currentLine w = [] -> currentWidth w = 0) ->
  List.length (filter no_segments
                 (finalLines (fold_left (wrap_segment mw) segs w)))
  = List.length (filter no_segments (finalLines w))
  /\ (currentLine (fold_left (wrap_segment mw) segs w) = [] ->
      currentLine w = []).
Proof.
  revert w. induction segs as [|s segs IH]; intros w Hs Hinv;
    cbn [fold_left]; [split; [reflexivity|intros H; exact H]|].
  pose proof (Forall_inv Hs) as Hw. cbn beta in Hw.
  assert (Hstep :
    List.length (filter no_segments (finalLines (wrap_segment mw w s)))
    = List.length (filter no_segments (finalLines w))
    /\ (currentLine (wrap_segment mw w s) = [] -> currentLine w = [])
    /\ (currentLine (wrap_segment mw w s) = [] ->
        currentWidth (wrap_segment mw w s) = 0)).
  { unfold wrap_segment. destruct (eqb (text s) [10%N]).
    - split; [reflexivity|]. split; [intros H; exact H|exact Hinv].
    - destruct (gtb (currentWidth w + width s) mw) eqn:Eg;
        destruct (Nat.ltb 0 (List.length (trim (text s))));
        cbn [andb finalLines currentLine currentWidth].
      + split.
        * rewrite count_blank_snoc. unfold no_segments at 2. cbn [segments].
          destruct (currentLine w) as [|c cl] eqn:Ec; [|lia].
          exfalso. rewrite (Hinv eq_refl) in Eg. apply gtb_true in Eg. lra.
        * split; intros H; discriminate H.
      + split; [reflexivity|].
        split; intros H; apply app_eq_nil in H; destruct H as [_ H];
          discriminate H.
      + split; [reflexivity|].
        split; intros H; apply app_eq_nil in H; destruct H as [_ H];
          discriminate H.
      + split; [reflexivity|].
        split; intros H; apply app_eq_nil in H; destruct H as [_ H];
          discriminate H. }
  destruct Hstep as (Hc & Hcur & Hinv').
  destruct (IH (wrap_segment mw w s) (Forall_inv_tail Hs) Hinv') as [IH1 IH2].
  split; [rewrite IH1; exact Hc|]. intros H. apply Hcur, IH2, H.
Qed.

Lemma layout_line_blank (measure : jsstring -> number) (mw : number)
  (acc : list Line) (line : jsstring) :
  Forall (fun seg => width seg <= mw) (measure_parts measure (split_ws line)) ->
  List.length (filter no_segments (layout_line measure mw acc line))
  = (List.length (filter no_segments acc)
     + if is_empty_string line then 1 else 0)%nat.
Proof.
  intros Hw. destruct line as [|c line].
  - unfold layout_line. rewrite count_blank_snoc. reflexivity.
  - rewrite layout_line_nonempty by discriminate. cbv zeta.
    destruct (wrap_fold_blank mw _
                {| finalLines := acc; currentLine := []; currentWidth := 0 |}
                Hw (fun _ => eq_refl)) as [Hc _].
    cbn [finalLines] in Hc. cbn [is_empty_string truthy_str negb].
    destruct (fold_left (wrap_segment mw) _ _) as [fl cl cw].
    cbn [finalLines currentLine currentWidth] in *.
    destruct cl as [|s cl]; [lia|].
    rewrite count_blank_snoc. unfold no_segments at 2. cbn [segments]. lia.
Qed.

(** X17: when no token of the script is wider than [maxWidth], the layout
    has a line without segments for each empty hard line of the script and
    no other: wrapping never produces a blank line of its own. *)
Theorem blank_lines_are_blank_hard_lines (ctx : Context2D)
  (config : VideoConfig) :
  Forall (fun line =>
            Forall (fun seg => width seg <= maxWidth config)
                   (tokens ctx config line))
         (rawLines config) ->
  List.length (filter no_segments (lines (Some ctx) config))
  = List.length (filter is_empty_string (rawLines config)).
Proof.
  intros Hw. unfold lines. fold (rawLines config).
  assert (G : forall raw acc,
    Forall (fun line =>
              Forall (fun seg => width seg <= maxWidth config)
                     (tokens ctx config line)) raw ->
    List.length (filter no_segments
      (fold_left (layout_line (ctx (textFont config)) (maxWidth config))
                 raw acc))
    = (List.length (filter no_segments acc)
       + List.length (filter is_empty_string raw))%nat).
  { induction raw as [|l raw IH]; intros acc H; cbn [fold_left filter].
    - cbn. lia.
    - rewrite (IH _ (Forall_inv_tail H)).
      rewrite (layout_line_blank _ _ _ _ (Forall_inv H)).
      destruct (is_empty_string l); cbn [List.length]; lia. }
  rewrite (G _ [] Hw). reflexivity.
Qed.

Lemma blank_lines_are_blank_hard_lines_witness :
  let config :=
    with_script (str "Hello" ++ [10%N; 10%N] ++ str "big world") hello_world in
  List.length (filter no_segments (lines (Some monospace) config)) = 1%nat.
Proof.
  cbv zeta.
  rewrite (blank_lines_are_blank_hard_lines monospace
             (with_script (str "Hello" ++ [10%N; 10%N] ++ str "big world")
                          hello_world)).
  - reflexivity.
  - repeat constructor; vm_compute; discriminate.
Defined.

(** ** Witnesses for the export loop and the download name *)

Lemma export_run_stays_stopped_witness :
  is_recording
    (export_run (Some monospace) hello_world
       (export_step (Some monospace) hello_world (exporting_state 3)
          CancelClick)
       [WorkerTick 3033; FallbackTimeout; WorkerTick 99000]) = false.
Proof.
  destruct (export_run_stays_stopped (Some monospace) hello_world
              [WorkerTick 3033; FallbackTimeout; WorkerTick 99000]
              (export_step (Some monospace) hello_world (exporting_state 3)
                 CancelClick)) as (_ & _ & H).
  apply H. reflexivity.
Defined.

Lemma download_name_spec_witness :
  downloadName (Some (str "  ")) (getSupportedMimeType (fun _ => false))
  = str "rakib.webm"
  /\ downloadName (Some (str "my film")) (getSupportedMimeType (fun _ => false))
     = str "my film.webm".
Proof.
  destruct (download_name_spec (fun _ => false) (Some (str "  ")))
    as (_ & A & _).
  destruct (download_name_spec (fun _ => false) (Some (str "my film")))
    as (_ & _ & C).
  split.
  - rewrite (A _ eq_refl eq_refl). reflexivity.
  - rewrite (C _ eq_refl); [reflexivity|]. vm_compute. discriminate.
Defined.
